(** * vigenere: a shallow embedding of the Go package and its properties

    The package [vigenere] (file [vigenere.go]) implements the
    Vigenere-Vernam cipher over a configurable alphabet.  This file embeds
    its functions in Rocq and proves the properties of its specification.

    Go values are modelled as follows.
    - A Go [string] is a sequence of bytes: [string] of Rocq, whose
      characters are 8-bit.  [len(s)] is the number of bytes.
    - [for _, r := range s] decodes UTF-8: module [Go] gives the decoder of
      the language ([runes]) and the conversion [string(r)]
      ([string_of_rune]).
    - [int64] is [Z] with the wrap-around written out ([Go.int64]).
    - A run-time panic is an outcome of its own ([Go.Panic]), distinct from
      a returned [error].
    - [map[string]bool] is [gmap string bool]; a missing key reads as
      [false]. *)

From Stdlib Require Import ZArith Zbitwise.
From stdpp Require Import gmap strings list fin_maps.

Local Open Scope Z_scope.

(** ** The Go language: strings, runes, integers, panics *)

Module Go.

(** [len(s)] for a string: its number of bytes. *)
Definition len (s : string) : Z := Z.of_nat (String.length s).

Definition byte_of (c : Ascii.ascii) : Z := Z.of_N (Ascii.N_of_ascii c).
Definition chr (b : Z) : Ascii.ascii := Ascii.ascii_of_N (Z.to_N b).

(** The string made of the given bytes. *)
Fixpoint bytes (bs : list Z) : string :=
  match bs with
  | [] => EmptyString
  | b :: rest => String (chr b) (bytes rest)
  end.

Definition RuneError : Z := 0xFFFD.
Definition MaxRune : Z := 0x10FFFF.

(** The range accepted for the second byte of a sequence that starts with
    [s0] (table [acceptRanges] of [unicode/utf8]). *)
Definition acceptRange (s0 : Z) : Z * Z :=
  if s0 =? 0xE0 then (0xA0, 0xBF)
  else if s0 =? 0xED then (0x80, 0x9F)
  else if s0 =? 0xF0 then (0x90, 0xBF)
  else if s0 =? 0xF4 then (0x80, 0x8F)
  else (0x80, 0xBF).

Definition continuation (b : Z) : bool := (0x80 <=? b) && (b <=? 0xBF).

(** [decoderune s]: the first rune of [s] and its width in bytes.  An
    invalid or truncated sequence gives [RuneError] and width 1. *)
Definition decoderune (s : string) : Z * nat :=
  match s with
  | EmptyString => (RuneError, 0%nat)
  | String c0 t0 =>
    let s0 := byte_of c0 in
    if s0 <? 0x80 then (s0, 1%nat)
    else if (s0 <? 0xC2) || (0xF4 <? s0) then (RuneError, 1%nat)
    else
      match t0 with
      | EmptyString => (RuneError, 1%nat)
      | String c1 t1 =>
        let s1 := byte_of c1 in
        let (lo, hi) := acceptRange s0 in
        if (s1 <? lo) || (hi <? s1) then (RuneError, 1%nat)
        else if s0 <? 0xE0 then
          (Z.lor (Z.shiftl (Z.land s0 0x1F) 6) (Z.land s1 0x3F), 2%nat)
        else
          match t1 with
          | EmptyString => (RuneError, 1%nat)
          | String c2 t2 =>
            let s2 := byte_of c2 in
            if negb (continuation s2) then (RuneError, 1%nat)
            else if s0 <? 0xF0 then
              (Z.lor (Z.lor (Z.shiftl (Z.land s0 0x0F) 12)
                            (Z.shiftl (Z.land s1 0x3F) 6))
                     (Z.land s2 0x3F), 3%nat)
            else
              match t2 with
              | EmptyString => (RuneError, 1%nat)
              | String c3 _ =>
                let s3 := byte_of c3 in
                if negb (continuation s3) then (RuneError, 1%nat)
                else
                  (Z.lor (Z.lor (Z.lor (Z.shiftl (Z.land s0 0x07) 18)
                                       (Z.shiftl (Z.land s1 0x3F) 12))
                                (Z.shiftl (Z.land s2 0x3F) 6))
                         (Z.land s3 0x3F), 4%nat)
              end
          end
      end
  end.

(** [for _, r := range s]: the runes of [s], in order.  After a rune of
    width [w] the loop resumes [w] bytes further: [skip] counts the bytes
    of the current rune that are still to be passed over. *)
Fixpoint runes_from (skip : nat) (s : string) : list Z :=
  match s with
  | EmptyString => []
  | String _ t =>
    match skip with
    | S k => runes_from k t
    | O => let (r, w) := decoderune s in r :: runes_from (Nat.pred w) t
    end
  end.

Definition runes (s : string) : list Z := runes_from 0 s.

(** [string(r)]: the UTF-8 encoding of rune [r]; a value that is not a
    valid code point is converted to the encoding of [RuneError]. *)
Definition string_of_rune (r : Z) : string :=
  if (0 <=? r) && (r <? 0x80) then bytes [r]
  else if (0x80 <=? r) && (r <? 0x800) then
    bytes [Z.lor 0xC0 (Z.shiftr r 6); Z.lor 0x80 (Z.land r 0x3F)]
  else if (r <? 0) || (MaxRune <? r) || ((0xD800 <=? r) && (r <=? 0xDFFF))
  then bytes [0xEF; 0xBF; 0xBD]
  else if r <? 0x10000 then
    bytes [Z.lor 0xE0 (Z.shiftr r 12);
           Z.lor 0x80 (Z.land (Z.shiftr r 6) 0x3F);
           Z.lor 0x80 (Z.land r 0x3F)]
  else
    bytes [Z.lor 0xF0 (Z.shiftr r 18);
           Z.lor 0x80 (Z.land (Z.shiftr r 12) 0x3F);
           Z.lor 0x80 (Z.land (Z.shiftr r 6) 0x3F);
           Z.lor 0x80 (Z.land r 0x3F)].

(** [strings.Join] of [elems] with the empty separator. *)
Definition join (elems : list string) : string :=
  fold_right String.append EmptyString elems.

(** A value of type [int64]: the integer reduced to 64 bits, two's
    complement. *)
Definition int64 (z : Z) : Z := (z + 2 ^ 63) mod 2 ^ 64 - 2 ^ 63.

(** Run-time panics, by the place that raises them. *)
Inductive panic : Set :=
| IndexOutOfRange_numericSecret   (* [numericSecret[i]] in Encrypt, Decrypt *)
| IndexOutOfRange_Alphabets       (* [v.Alphabets[num]] in ConvertToString *)
| DivideByZero                    (* [% v.Length] with [v.Length == 0] *)
| RandIntArgument.                (* [rand.Int] with [max <= 0] *)

Inductive outcome (A : Type) : Type :=
| Ret (a : A)
| Panic (p : panic).
Arguments Ret {A} a.
Arguments Panic {A} p.

(** Sequencing: a panic ends the call.  With these instances stdpp's
    [x ← m; k] reads as the statement sequence of the source. *)
#[global] Instance outcome_ret : MRet outcome := fun A a => Ret a.
#[global] Instance outcome_bind : MBind outcome := fun A B k m =>
  match m with
  | Ret a => k a
  | Panic p => Panic p
  end.

(** [s[i]] on a slice, with an [int] index: a panic out of range. *)
Definition index {A} (p : panic) (s : list A) (i : Z) : outcome A :=
  if (0 <=? i) && (i <? Z.of_nat (length s)) then
    match s !! Z.to_nat i with
    | Some a => Ret a
    | None => Panic p
    end
  else Panic p.

End Go.

(** ** The package [vigenere] *)

(** The values of type [error] that the package returns: its four
    sentinel errors, and whatever error reading the random source gives
    (identified by its message, as [errors.New] does). *)
Inductive error : Set :=
| errDuplicateAlphabets
| errInvalidString
| errDecryptLengthNotEqual
| errEncryptLengthNotEqual
| errRandomSource (msg : string).

(** [type Vigenere struct].  [RandomSource] is an [io.Reader]; reading
    it changes it, so the field holds the current state of the source and
    the methods that read it return the state they leave it in. *)
Record Vigenere {Source : Type} : Type := {
  Alphabets : list string;
  Length : Z;
  RandomSource : Source
}.
Arguments Vigenere Source : clear implicits.

(** [set[key]] on a [map[string]bool]: [false] for a missing key. *)
Definition map_get (set : gmap string bool) (key : string) : bool :=
  default false (set !! key).

(** [GenerateDefaultAlphabets]: [for i := 65; i <= 90; i++]. *)
Definition GenerateDefaultAlphabets : list string :=
  fold_left (fun alphabets i => alphabets ++ [Go.string_of_rune i])
            (seqZ 65 26) [].

(** The loop of [NewVigenere]: the error at the first symbol already in
    [set], if any. *)
Fixpoint NewVigenere_loop (set : gmap string bool) (alphabets : list string)
  : option error :=
  match alphabets with
  | [] => None
  | alphabet :: rest =>
    if map_get set alphabet then Some errDuplicateAlphabets
    else NewVigenere_loop (<[alphabet := true]> set) rest
  end.

(** The inner loop of [ConvertToNumeric]:
    [for i, char := range v.Alphabets], entered at index [i], for the
    rune [r] of the outer loop.  The index is an [int] below the length
    of the slice: [int64(i)] is the same number. *)
Fixpoint ConvertToNumeric_scan (alphabets : list string) (i : Z) (r : Z)
    (numeric : list Z) : list Z :=
  match alphabets with
  | [] => numeric
  | char :: rest =>
    ConvertToNumeric_scan rest (i + 1) r
      (if String.eqb char (Go.string_of_rune r) then numeric ++ [i]
       else numeric)
  end.

(** The loop of [ConvertToString]. *)
Fixpoint ConvertToString_loop (alphabets : list string) (numbers : list Z)
    (str : list string) : Go.outcome (list string) :=
  match numbers with
  | [] => Go.Ret str
  | num :: rest =>
    a ← Go.index Go.IndexOutOfRange_Alphabets alphabets num;
    ConvertToString_loop alphabets rest (str ++ [a])
  end.

(** The loop of [Encrypt]: [for i, char := range numericPlaintext]. *)
Fixpoint Encrypt_loop (Length : Z) (numericSecret : list Z) (i : Z)
    (numericPlaintext : list Z) (ciphertext : list Z) : Go.outcome (list Z) :=
  match numericPlaintext with
  | [] => Go.Ret ciphertext
  | char :: rest =>
    s ← Go.index Go.IndexOutOfRange_numericSecret numericSecret i;
    if Length =? 0 then Go.Panic Go.DivideByZero
    else
      let equivalent := Z.rem (Go.int64 (s + char)) Length in
      Encrypt_loop Length numericSecret (i + 1) rest (ciphertext ++ [equivalent])
  end.

(** The loop of [Decrypt]: [for i, char := range numericCiphertext]. *)
Fixpoint Decrypt_loop (Length : Z) (numericSecret : list Z) (i : Z)
    (numericCiphertext : list Z) (plaintext : list Z) : Go.outcome (list Z) :=
  match numericCiphertext with
  | [] => Go.Ret plaintext
  | char :: rest =>
    s ← Go.index Go.IndexOutOfRange_numericSecret numericSecret i;
    let equivalent := Go.int64 (char - s) in
    let equivalent :=
      if equivalent <? 0 then Go.int64 (equivalent + Length) else equivalent in
    Decrypt_loop Length numericSecret (i + 1) rest (plaintext ++ [equivalent])
  end.

(** The second loop of [ValidateString]. *)
Fixpoint ValidateString_loop (set : gmap string bool) (rs : list Z)
  : bool * option error :=
  match rs with
  | [] => (true, None)
  | r :: rest =>
    if negb (map_get set (Go.string_of_rune r)) then (false, Some errInvalidString)
    else ValidateString_loop set rest
  end.

Section Package.

Context {Source : Type}.

(** [rand.Reader], the source that [NewVigenere] binds. *)
Variable rand_Reader : Source.

(** [rand.Int(src, max)] of [crypto/rand], for [max > 0]: the state in
    which the call leaves the source, and the number drawn or the error
    of the failed read.  The function is not part of the package; it is
    taken as given, and taken to return.  ([rand.Int] panics when
    [max <= 0]; that case is written out in [GenerateRandomNumber].) *)
Variable rand_Int : Source -> Z -> Source * (Z + error).

(** [NewVigenere].  [len(alphabets)] is an [int], so [int64] of it is the
    same number. *)
Definition NewVigenere (alphabets : list string)
  : option (Vigenere Source) * option error :=
  let set : gmap string bool := ∅ in
  let alphabets :=
    if Z.of_nat (length alphabets) =? 0 then GenerateDefaultAlphabets
    else alphabets in
  match NewVigenere_loop set alphabets with
  | Some err => (None, Some err)
  | None =>
    (Some {| Alphabets := alphabets;
             Length := Z.of_nat (length alphabets);
             RandomSource := rand_Reader |}, None)
  end.

Definition ConvertToNumeric (v : Vigenere Source) (str : string) : list Z :=
  fold_left (fun numeric r => ConvertToNumeric_scan (Alphabets v) 0 r numeric)
            (Go.runes str) [].

Definition ConvertToString (v : Vigenere Source) (numbers : list Z)
  : Go.outcome string :=
  str ← ConvertToString_loop (Alphabets v) numbers [];
  mret (Go.join str).

Definition Decrypt (v : Vigenere Source) (ciphertext secret : string)
  : Go.outcome (string * option error) :=
  if Go.len secret <? Go.len ciphertext then
    mret (EmptyString, Some errDecryptLengthNotEqual)
  else
    let numericCiphertext := ConvertToNumeric v ciphertext in
    let numericSecret := ConvertToNumeric v secret in
    plaintext ← Decrypt_loop (Length v) numericSecret 0 numericCiphertext [];
    str ← ConvertToString v plaintext;
    mret (str, None).

Definition Encrypt (v : Vigenere Source) (plaintext secret : string)
  : Go.outcome (string * option error) :=
  if Go.len secret <? Go.len plaintext then
    mret (EmptyString, Some errEncryptLengthNotEqual)
  else
    let numericPlaintext := ConvertToNumeric v plaintext in
    let numericSecret := ConvertToNumeric v secret in
    ciphertext ← Encrypt_loop (Length v) numericSecret 0 numericPlaintext [];
    str ← ConvertToString v ciphertext;
    mret (str, None).

(** The receiver with its random source in state [src]. *)
Definition with_source (v : Vigenere Source) (src : Source) : Vigenere Source :=
  {| Alphabets := Alphabets v; Length := Length v; RandomSource := src |}.

Definition GenerateRandomNumber (v : Vigenere Source)
  : Source * Go.outcome (Z * option error) :=
  if Length v <=? 0 then (RandomSource v, Go.Panic Go.RandIntArgument)
  else
    match rand_Int (RandomSource v) (Length v) with
    | (src, inr err) => (src, Go.Ret (0, Some err))
    | (src, inl number) => (src, Go.Ret (Go.int64 number, None))
    end.

(** The loop of [GenerateSecretKey], [for range plaintext]: one draw for
    each rune; [inr err] is the early return of the error. *)
Fixpoint GenerateSecretKey_loop (v : Vigenere Source) (rs : list Z) (secret : list Z)
  : Source * Go.outcome (list Z + error) :=
  match rs with
  | [] => (RandomSource v, Go.Ret (inl secret))
  | _ :: rest =>
    match GenerateRandomNumber v with
    | (src, Go.Panic p) => (src, Go.Panic p)
    | (src, Go.Ret (_, Some err)) => (src, Go.Ret (inr err))
    | (src, Go.Ret (number, None)) =>
      GenerateSecretKey_loop (with_source v src) rest (secret ++ [number])
    end
  end.

Definition GenerateSecretKey (v : Vigenere Source) (plaintext : string)
  : Source * Go.outcome (string * option error) :=
  match GenerateSecretKey_loop v (Go.runes plaintext) [] with
  | (src, Go.Panic p) => (src, Go.Panic p)
  | (src, Go.Ret (inr err)) => (src, Go.Ret (EmptyString, Some err))
  | (src, Go.Ret (inl secret)) =>
    (src, str ← ConvertToString v secret; mret (str, None))
  end.

Definition ValidateString (v : Vigenere Source) (str : string) : bool * option error :=
  let set : gmap string bool :=
    fold_left (fun set alphabet => <[alphabet := true]> set) (Alphabets v) ∅ in
  ValidateString_loop set (Go.runes str).

End Package.

Arguments NewVigenere {Source} rand_Reader alphabets.

(** ** Notions used by the properties *)

(** A symbol that is one ASCII character: one byte, below 0x80. *)
Definition is_ascii_symbol (a : string) : bool :=
  match a with
  | String c EmptyString => Go.byte_of c <? 0x80
  | _ => false
  end.

(** [encodes alphabets numeric str]: [str] is, byte for byte, the text
    whose symbols have the indices [numeric] in [alphabets], all of them
    one ASCII character. *)
Inductive encodes (alphabets : list string) : list Z -> string -> Prop :=
| encodes_nil : encodes alphabets [] EmptyString
| encodes_cons k c numeric str :
    0 <= k ->
    alphabets !! Z.to_nat k = Some (String c EmptyString) ->
    Go.byte_of c < 0x80 ->
    encodes alphabets numeric str ->
    encodes alphabets (k :: numeric) (String c str).

(** A symbol that is one rune: the UTF-8 encoding of one code point
    other than U+FFFD, which is what the decoder gives for a byte that is
    not UTF-8. *)
Definition is_rune_symbol (a : string) : bool :=
  match Go.runes a with
  | [r] => negb (r =? Go.RuneError)
  | _ => false
  end.

(** The encoding of U+FFFD is no symbol of the alphabet. *)
Definition no_replacement_symbol (alphabets : list string) : bool :=
  forallb (fun a => negb (String.eqb a (Go.string_of_rune Go.RuneError)))
          alphabets.

(** The symbols of the alphabet all have the length in bytes of the
    first. *)
Definition symbol_width (alphabets : list string) : nat :=
  match alphabets with
  | a :: _ => String.length a
  | [] => 0%nat
  end.

Definition uniform_width (alphabets : list string) : bool :=
  forallb (fun a => Nat.eqb (String.length a) (symbol_width alphabets))
          alphabets.

(** What [Encrypt] and [Decrypt] compute at one position, for an
    alphabet of [L] symbols, when nothing overflows. *)
Definition add_mod (L char s : Z) : Z := (s + char) mod L.
Definition sub_wrap (L char s : Z) : Z :=
  if char - s <? 0 then char - s + L else char - s.

(** An index of the alphabet of [v]. *)
Definition in_range {Source} (v : Vigenere Source) (num : Z) : Prop :=
  0 <= num < Z.of_nat (length (Alphabets v)).

Section Draws.

Context {Source : Type}.
Variable rand_Int : Source -> Z -> Source * (Z + error).

(** [draws max src numbers src']: from state [src], [rand.Int] called
    [length numbers] times with bound [max] succeeds every time, gives
    [numbers] in order, and leaves the source in state [src']. *)
Inductive draws (max : Z) : Source -> list Z -> Source -> Prop :=
| draws_nil src : draws max src [] src
| draws_cons src src1 number numbers src' :
    rand_Int src max = (src1, inl number) ->
    draws max src1 numbers src' ->
    draws max src (number :: numbers) src'.

End Draws.

(** A source for examples, in the manner of [iotest.ErrReader] of the
    package's tests: a script of the results of the successive calls of
    [rand.Int], each number reduced into the range asked for; past the
    end of the script every call fails. *)
Module Scripted.

Definition Source : Type := list (Z + error).

Definition rand_Int (src : Source) (max : Z) : Source * (Z + error) :=
  match src with
  | [] => ([], inr (errRandomSource "EOF"))
  | inl number :: rest => (rest, inl (number mod max))
  | inr err :: rest => (rest, inr err)
  end.

(** The context of the default alphabet, bound to a script. *)
Definition default (script : Source) : Vigenere Source :=
  {| Alphabets := GenerateDefaultAlphabets; Length := 26;
     RandomSource := script |}.

(** A context over the given symbols, bound to a script. *)
Definition context (alphabets : list string) (script : Source)
  : Vigenere Source :=
  {| Alphabets := alphabets; Length := Z.of_nat (length alphabets);
     RandomSource := script |}.

End Scripted.

(** ** The example program, [example/main.go] *)

(** [err.Error()]: the message of an error, as [errors.New] was given
    it. *)
Definition Error (err : error) : string :=
  match err with
  | errDuplicateAlphabets =>
    "NewVigenere: Character set contains duplicate characters"
  | errInvalidString =>
    "ValidateString: string does not conform to the defined vigenere's alphabets"
  | errDecryptLengthNotEqual =>
    "Decrypt: ciphertext and secret are not of equal length"
  | errEncryptLengthNotEqual =>
    "Encrypt: plaintext and secret are not of equal length"
  | errRandomSource msg => msg
  end.

Module ExampleMain.

(** How [main] ends. *)
Inductive termination : Type :=
| Returned (stdout : list string)  (* it returns; the lines it has printed *)
| LogFatal (msg : string)          (* [log.Fatal(msg)]: exit status 1 *)
| PanicValue (msg : string)        (* [panic(msg)] of [main] itself *)
| PanicRuntime (p : Go.panic)      (* a run-time panic inside the package *)
| NilDereference.                  (* a method called on a nil [*Vigenere] *)

(** The line that [fmt.Println(a, b)] prints, without its newline: the
    operands with a space between them. *)
Definition Println2 (a b : string) : string := a +:+ " " +:+ b.

(** A [bool] as [fmt] prints it. *)
Definition format_bool (b : bool) : string := if b then "true" else "false".

Section Main.

Context {Source : Type}.
Variable rand_Reader : Source.
Variable rand_Int : Source -> Z -> Source * (Z + error).

(** [func main()]: the state in which it leaves the random source, and
    how it ends. *)
Definition main : Source * termination :=
  match NewVigenere rand_Reader [] with
  | (_, Some err) => (rand_Reader, LogFatal (Error err))
  | (None, None) => (rand_Reader, NilDereference)
  | (Some vigenere, None) =>
    let plaintext := "VIGENERECIPHER" in
    match ValidateString vigenere plaintext with
    | (_, Some err) => (rand_Reader, LogFatal (Error err))
    | (valid, None) =>
      match GenerateSecretKey rand_Int vigenere plaintext with
      | (src, Go.Panic p) => (src, PanicRuntime p)
      | (src, Go.Ret (_, Some err)) =>
        (src, PanicValue ("crypto/rand failed, reason: " +:+ Error err))
      | (src, Go.Ret (secret, None)) =>
        match Encrypt vigenere plaintext secret with
        | Go.Panic p => (src, PanicRuntime p)
        | Go.Ret (_, Some err) => (src, LogFatal (Error err))
        | Go.Ret (ciphertext, None) =>
          match Decrypt vigenere ciphertext secret with
          | Go.Panic p => (src, PanicRuntime p)
          | Go.Ret (_, Some err) => (src, LogFatal (Error err))
          | Go.Ret (decrypted, None) =>
            (src,
             Returned
               ["Vigenere Encryption done with the following results:";
                Println2 "Valid Plaintext:" (format_bool valid);
                Println2 "Plaintext:" plaintext;
                Println2 "Secret Key:" secret;
                Println2 "Ciphertext:" ciphertext;
                Println2 "Decrypted:" decrypted])
          end
        end
      end
    end
  end.

End Main.

End ExampleMain.

(** ** The Go primitives at work *)

Example runes_ascii : Go.runes "HI" = [72; 73].
Proof. reflexivity. Qed.

(** The two bytes C3 A9 are one rune, U+00E9. *)
Example runes_two_bytes : Go.runes (Go.bytes [0xC3; 0xA9; 0x41]) = [0xE9; 0x41].
Proof. reflexivity. Qed.

Example runes_invalid : Go.runes (Go.bytes [0xFF; 0x41]) = [0xFFFD; 0x41].
Proof. reflexivity. Qed.

Example string_of_rune_two_bytes : Go.string_of_rune 0xE9 = Go.bytes [0xC3; 0xA9].
Proof. reflexivity. Qed.

(** ** Facts about the Go primitives *)

Module GoFacts.
Import Go.

Lemma int64_small z : - 2 ^ 63 <= z < 2 ^ 63 -> int64 z = z.
Proof.
  intros Hz. unfold int64.
  rewrite Z.mod_small by lia. lia.
Qed.

Lemma byte_of_range c : 0 <= byte_of c < 256.
Proof.
  unfold byte_of. pose proof (Ascii.N_ascii_bounded c). lia.
Qed.

Lemma chr_byte_of c : chr (byte_of c) = c.
Proof.
  unfold chr, byte_of. rewrite N2Z.id. apply Ascii.ascii_N_embedding.
Qed.

Lemma byte_of_chr b : 0 <= b < 256 -> byte_of (chr b) = b.
Proof.
  intros Hb. unfold chr, byte_of.
  rewrite Ascii.N_ascii_embedding by lia. lia.
Qed.

Lemma lor_ge_l a b : 0 <= b -> a <= Z.lor a b.
Proof.
  intros Hb. pose proof (Z.sub_lor_l_same_l b a) as H.
  assert (0 <= Z.land b (Z.lnot a)) by (apply Z.land_nonneg; lia).
  lia.
Qed.

Lemma lor_ge_r a b : 0 <= a -> b <= Z.lor a b.
Proof. intros Ha. rewrite Z.lor_comm. by apply lor_ge_l. Qed.

Lemma land_0x3F b : Z.land b 0x3F = b mod 64.
Proof. change 0x3F with (Z.ones 6). by rewrite Z.land_ones. Qed.

Lemma land_0x1F b : Z.land b 0x1F = b mod 32.
Proof. change 0x1F with (Z.ones 5). by rewrite Z.land_ones. Qed.

Lemma land_0x0F b : Z.land b 0x0F = b mod 16.
Proof. change 0x0F with (Z.ones 4). by rewrite Z.land_ones. Qed.

Lemma land_0x07 b : Z.land b 0x07 = b mod 8.
Proof. change 0x07 with (Z.ones 3). by rewrite Z.land_ones. Qed.

(** A rune below 0x80 is decoded only from a single byte, itself. *)
Lemma decoderune_below_0x80 c t r w :
  decoderune (String c t) = (r, w) -> r < 0x80 ->
  r = byte_of c /\ w = 1%nat.
Proof.
  unfold decoderune, RuneError, continuation.
  pose proof (byte_of_range c) as Hc.
  destruct (Z.ltb_spec (byte_of c) 0x80) as [H0|H0];
    [intros [= <- <-]; done|].
  destruct (_ || _) eqn:Hinv; [intros [= <- <-]; lia|].
  apply orb_false_iff in Hinv as [Hlo%Z.ltb_ge Hhi%Z.ltb_ge].
  destruct t as [|c1 t1]; [intros [= <- <-]; lia|].
  pose proof (byte_of_range c1) as Hc1.
  destruct (acceptRange (byte_of c)) as [lo hi] eqn:Hacc.
  destruct (_ || _) eqn:Hs1; [intros [= <- <-]; lia|].
  apply orb_false_iff in Hs1 as [Hs1lo%Z.ltb_ge Hs1hi%Z.ltb_ge].
  assert (Hlohi : 0x80 <= lo /\ hi <= 0xBF /\
                  (byte_of c = 0xE0 -> 0xA0 <= lo) /\
                  (byte_of c = 0xF0 -> 0x90 <= lo)).
  { unfold acceptRange in Hacc.
    repeat match type of Hacc with
           | (if ?b then _ else _) = _ => destruct b eqn:?
           end;
      injection Hacc as <- <-;
      repeat match goal with
             | H : (_ =? _) = true |- _ => apply Z.eqb_eq in H
             | H : (_ =? _) = false |- _ => apply Z.eqb_neq in H
             end; lia. }
  assert (Hm1 : 0 <= Z.land (byte_of c1) 0x3F)
    by (rewrite land_0x3F; apply Z.mod_pos_bound; lia).
  destruct (Z.ltb_spec (byte_of c) 0xE0) as [H2|H2].
  { intros [= <- <-] Hr. exfalso.
    pose proof (lor_ge_l (Z.shiftl (Z.land (byte_of c) 0x1F) 6)
                         (Z.land (byte_of c1) 0x3F) Hm1) as Hge.
    rewrite Z.shiftl_mul_pow2, land_0x1F in Hge, Hr by lia.
    assert (2 <= byte_of c mod 32) by (Z.div_mod_to_equations; lia).
    lia. }
  destruct t1 as [|c2 t2]; [intros [= <- <-]; lia|].
  pose proof (byte_of_range c2) as Hc2.
  destruct (negb _); [intros [= <- <-]; lia|].
  assert (Hm2 : 0 <= Z.land (byte_of c2) 0x3F)
    by (rewrite land_0x3F; apply Z.mod_pos_bound; lia).
  assert (Hs1m : byte_of c1 mod 64 = byte_of c1 - 0x80)
    by (Z.div_mod_to_equations; lia).
  destruct (Z.ltb_spec (byte_of c) 0xF0) as [H3|H3].
  { intros [= <- <-] Hr. exfalso.
    set (A := Z.shiftl (Z.land (byte_of c) 0x0F) 12) in *.
    set (B := Z.shiftl (Z.land (byte_of c1) 0x3F) 6) in *.
    assert (HA : A = byte_of c mod 16 * 4096)
      by (unfold A; by rewrite Z.shiftl_mul_pow2, land_0x0F by lia).
    assert (HB : B = byte_of c1 mod 64 * 64)
      by (unfold B; by rewrite Z.shiftl_mul_pow2, land_0x3F by lia).
    assert (0 <= byte_of c mod 16) by (apply Z.mod_pos_bound; lia).
    pose proof (lor_ge_l (Z.lor A B) _ Hm2).
    pose proof (lor_ge_l A B ltac:(lia)).
    pose proof (lor_ge_r A B ltac:(lia)).
    assert (byte_of c = 0xE0 \/ 1 <= byte_of c mod 16)
      by (Z.div_mod_to_equations; lia).
    lia. }
  destruct t2 as [|c3 t3]; [intros [= <- <-]; lia|].
  pose proof (byte_of_range c3) as Hc3.
  destruct (negb _); [intros [= <- <-]; lia|].
  intros [= <- <-] Hr. exfalso.
  assert (Hm3 : 0 <= Z.land (byte_of c3) 0x3F)
    by (rewrite land_0x3F; apply Z.mod_pos_bound; lia).
  set (A := Z.shiftl (Z.land (byte_of c) 0x07) 18) in *.
  set (B := Z.shiftl (Z.land (byte_of c1) 0x3F) 12) in *.
  set (C := Z.shiftl (Z.land (byte_of c2) 0x3F) 6) in *.
  assert (HA : A = byte_of c mod 8 * 262144)
    by (unfold A; by rewrite Z.shiftl_mul_pow2, land_0x07 by lia).
  assert (HB : B = byte_of c1 mod 64 * 4096)
    by (unfold B; by rewrite Z.shiftl_mul_pow2, land_0x3F by lia).
  assert (HC : 0 <= C).
  { unfold C. rewrite Z.shiftl_mul_pow2 by lia. lia. }
  assert (0 <= byte_of c mod 8) by (apply Z.mod_pos_bound; lia).
  pose proof (lor_ge_l (Z.lor (Z.lor A B) C) _ Hm3).
  pose proof (lor_ge_l (Z.lor A B) C HC).
  pose proof (lor_ge_l A B ltac:(lia)).
  pose proof (lor_ge_r A B ltac:(lia)).
  assert (byte_of c = 0xF0 \/ 1 <= byte_of c mod 8)
    by (Z.div_mod_to_equations; lia).
  lia.
Qed.

Lemma string_of_rune_below_0x80 r :
  0 <= r < 0x80 -> string_of_rune r = String (chr r) EmptyString.
Proof.
  intros Hr. unfold string_of_rune.
  destruct (Z.leb_spec 0 r); [|lia].
  destruct (Z.ltb_spec r 0x80); [done|lia].
Qed.

(** Only a rune below 0x80 has a one-byte encoding. *)
Lemma string_of_rune_one_byte r c :
  string_of_rune r = String c EmptyString -> 0 <= r < 0x80 /\ c = chr r.
Proof.
  unfold string_of_rune.
  destruct (_ && _) eqn:H1.
  { apply andb_true_iff in H1 as [?%Z.leb_le ?%Z.ltb_lt].
    simpl. intros [= <-]. done. }
  repeat (match goal with |- context [if ?b then _ else _] => destruct b end);
    simpl; discriminate.
Qed.

End GoFacts.

(** ** Facts about the loops of the package *)

Lemma index_inv {A} p (s : list A) i a :
  Go.index p s i = Go.Ret a ->
  0 <= i < Z.of_nat (length s) /\ s !! Z.to_nat i = Some a.
Proof.
  unfold Go.index. destruct (_ && _) eqn:Hb; [|discriminate].
  apply andb_true_iff in Hb as [?%Z.leb_le ?%Z.ltb_lt].
  destruct (s !! Z.to_nat i) eqn:Hl; [|discriminate].
  intros [= ->]. split; [lia|done].
Qed.

Lemma index_Ret {A} p (s : list A) i a :
  0 <= i -> s !! Z.to_nat i = Some a -> Go.index p s i = Go.Ret a.
Proof.
  intros Hi Hl. unfold Go.index.
  pose proof (lookup_lt_Some _ _ _ Hl).
  destruct (Z.leb_spec 0 i); [|lia].
  destruct (Z.ltb_spec i (Z.of_nat (length s))); [|lia].
  simpl. by rewrite Hl.
Qed.

Lemma index_in_range {A} p (s : list A) i :
  0 <= i < Z.of_nat (length s) -> exists a, Go.index p s i = Go.Ret a.
Proof.
  intros Hi.
  destruct (lookup_lt_is_Some_2 s (Z.to_nat i)) as [a Ha]; [lia|].
  exists a. apply index_Ret; [lia|done].
Qed.

Lemma index_middle {A} p (s1 s2 : list A) a :
  Go.index p (s1 ++ a :: s2) (Z.of_nat (length s1)) = Go.Ret a.
Proof.
  apply index_Ret; [lia|].
  rewrite Nat2Z.id. by rewrite list_lookup_middle.
Qed.

(** The set that [ValidateString] builds holds exactly the alphabet. *)
Lemma map_get_insert set a x :
  map_get (<[a := true]> set) x = true <-> a = x \/ map_get set x = true.
Proof.
  unfold map_get. destruct (decide (a = x)) as [->|Hne].
  - rewrite lookup_insert_eq. simpl. tauto.
  - rewrite lookup_insert_ne by done. tauto.
Qed.

Lemma map_get_fold alphabets set x :
  map_get (fold_left (fun set alphabet => <[alphabet := true]> set)
                     alphabets set) x = true
  <-> x ∈ alphabets \/ map_get set x = true.
Proof.
  revert set. induction alphabets as [|a rest IH]; intros set; simpl.
  - rewrite elem_of_nil. tauto.
  - rewrite IH, map_get_insert, elem_of_cons.
    split; intros [H|H]; try tauto; destruct H; subst; tauto.
Qed.

Lemma map_get_empty x : map_get ∅ x = false.
Proof. unfold map_get. by rewrite lookup_empty. Qed.

(** [NewVigenere_loop] accepts exactly the sequences without a repeated
    symbol (and without a symbol already in the set it starts from). *)
Lemma NewVigenere_loop_None set alphabets :
  NewVigenere_loop set alphabets = None
  <-> NoDup alphabets /\ Forall (fun x => map_get set x = false) alphabets.
Proof.
  revert set. induction alphabets as [|a rest IH]; intros set; simpl.
  - split; [intros _; split; constructor|done].
  - destruct (map_get set a) eqn:Ha.
    + split; [discriminate|]. intros [_ Hall].
      apply Forall_cons in Hall as [Hf _]. congruence.
    + rewrite IH, NoDup_cons, Forall_cons. split.
      * intros [Hnd Hall]. split_and!; [|done|done|].
        -- intros Hin. rewrite Forall_forall in Hall.
           specialize (Hall _ Hin).
           assert (map_get (<[a:=true]> set) a = true)
             by (apply map_get_insert; by left).
           congruence.
        -- eapply Forall_impl; [exact Hall|]. intros x Hx. simpl in Hx.
           destruct (map_get set x) eqn:Hsx; [|done].
           assert (map_get (<[a:=true]> set) x = true)
             by (apply map_get_insert; by right).
           congruence.
      * intros [[Hnin Hnd] [_ Hall]]. split; [done|].
        rewrite Forall_forall in Hall |- *. intros x Hin.
        destruct (map_get (<[a:=true]> set) x) eqn:Hx; [|done].
        apply map_get_insert in Hx as [->|Hx]; [done|].
        specialize (Hall _ Hin). congruence.
Qed.

Lemma NewVigenere_loop_error set alphabets err :
  NewVigenere_loop set alphabets = Some err -> err = errDuplicateAlphabets.
Proof.
  revert set. induction alphabets as [|a rest IH]; intros set; simpl;
    [discriminate|].
  destruct (map_get set a); [by intros [= <-]|apply IH].
Qed.

Lemma NewVigenere_loop_NoDup alphabets :
  NewVigenere_loop ∅ alphabets = None <-> NoDup alphabets.
Proof.
  rewrite NewVigenere_loop_None. split; [by intros [? _]|].
  intros Hnd. split; [done|].
  apply Forall_forall. intros x _. apply map_get_empty.
Qed.

Lemma GenerateDefaultAlphabets_eq :
  GenerateDefaultAlphabets =
  ["A"; "B"; "C"; "D"; "E"; "F"; "G"; "H"; "I"; "J"; "K"; "L"; "M";
   "N"; "O"; "P"; "Q"; "R"; "S"; "T"; "U"; "V"; "W"; "X"; "Y"; "Z"].
Proof. reflexivity. Qed.

(** The inner loop of [ConvertToNumeric] appends to [numeric]. *)
Lemma ConvertToNumeric_scan_app alphabets i r numeric :
  ConvertToNumeric_scan alphabets i r numeric =
  numeric ++ ConvertToNumeric_scan alphabets i r [].
Proof.
  revert i numeric. induction alphabets as [|char rest IH]; intros i numeric;
    simpl.
  - by rewrite app_nil_r.
  - destruct (String.eqb _ _).
    + rewrite IH. rewrite (IH _ [i]). by rewrite app_assoc.
    + apply IH.
Qed.

(** It appends only indices of the alphabet. *)
Lemma ConvertToNumeric_scan_range alphabets i r :
  Forall (fun num => i <= num < i + Z.of_nat (length alphabets))
         (ConvertToNumeric_scan alphabets i r []).
Proof.
  revert i. induction alphabets as [|char rest IH]; intros i; simpl;
    [constructor|].
  rewrite ConvertToNumeric_scan_app.
  apply Forall_app. split.
  - destruct (String.eqb _ _); repeat constructor; lia.
  - eapply Forall_impl; [apply IH|]. simpl. intros; lia.
Qed.

Lemma ConvertToNumeric_scan_absent alphabets i r :
  Go.string_of_rune r ∉ alphabets ->
  ConvertToNumeric_scan alphabets i r [] = [].
Proof.
  revert i. induction alphabets as [|char rest IH]; intros i Hnin; simpl;
    [done|].
  apply not_elem_of_cons in Hnin as [Hne Hnin].
  destruct (String.eqb_spec char (Go.string_of_rune r)); [congruence|].
  by apply IH.
Qed.

(** In a duplicate-free alphabet a symbol has one index. *)
Lemma ConvertToNumeric_scan_NoDup alphabets i r k :
  NoDup alphabets ->
  alphabets !! k = Some (Go.string_of_rune r) ->
  ConvertToNumeric_scan alphabets i r [] = [i + Z.of_nat k].
Proof.
  revert i k. induction alphabets as [|char rest IH]; intros i k Hnd Hk;
    [done|].
  apply NoDup_cons in Hnd as [Hnin Hnd]. simpl.
  rewrite ConvertToNumeric_scan_app.
  destruct k as [|k]; simpl in Hk.
  - injection Hk as ->. rewrite String.eqb_refl.
    rewrite ConvertToNumeric_scan_absent by done.
    simpl. f_equal. lia.
  - destruct (String.eqb_spec char (Go.string_of_rune r)) as [->|Hne].
    + exfalso. apply Hnin. by eapply list_elem_of_lookup_2.
    + rewrite (IH _ k) by done. simpl. f_equal. lia.
Qed.

Lemma ConvertToNumeric_fold alphabets rs numeric :
  fold_left (fun numeric r => ConvertToNumeric_scan alphabets 0 r numeric)
            rs numeric
  = numeric ++ flat_map (fun r => ConvertToNumeric_scan alphabets 0 r []) rs.
Proof.
  revert numeric. induction rs as [|r rs IH]; intros numeric; simpl.
  - by rewrite app_nil_r.
  - rewrite IH, ConvertToNumeric_scan_app. by rewrite app_assoc.
Qed.

(** The panics of the loops of [Encrypt] and [Decrypt] are their own. *)
Lemma index_Panic {A} p (s : list A) i q :
  Go.index p s i = Go.Panic q -> q = p.
Proof.
  unfold Go.index. destruct (_ && _); [|by intros [= <-]].
  destruct (s !! Z.to_nat i); [discriminate|by intros [= <-]].
Qed.

Lemma Encrypt_loop_Panic L numericSecret i numericPlaintext ciphertext q :
  Encrypt_loop L numericSecret i numericPlaintext ciphertext = Go.Panic q ->
  q = Go.IndexOutOfRange_numericSecret \/ q = Go.DivideByZero.
Proof.
  revert i ciphertext.
  induction numericPlaintext as [|char rest IH]; intros i ciphertext; simpl;
    [discriminate|].
  destruct (Go.index _ numericSecret i) as [s|p] eqn:Hidx; simpl.
  - destruct (L =? 0); [intros [= <-]; by right|apply IH].
  - apply index_Panic in Hidx as ->. intros [= <-]. by left.
Qed.

Lemma Decrypt_loop_Panic L numericSecret i numericCiphertext plaintext q :
  Decrypt_loop L numericSecret i numericCiphertext plaintext = Go.Panic q ->
  q = Go.IndexOutOfRange_numericSecret.
Proof.
  revert i plaintext.
  induction numericCiphertext as [|char rest IH]; intros i plaintext; simpl;
    [discriminate|].
  destruct (Go.index _ numericSecret i) as [s|p] eqn:Hidx; simpl.
  - apply IH.
  - apply index_Panic in Hidx as ->. by intros [= <-].
Qed.

Section PackageFacts.

Context {Source : Type}.
Implicit Types (v : Vigenere Source) (alphabets : list string).

(** What a successful construction establishes. *)
Lemma NewVigenere_Some (rand_Reader : Source) alphabets v err :
  NewVigenere rand_Reader alphabets = (Some v, err) ->
  err = None /\ NoDup (Alphabets v) /\
  Length v = Z.of_nat (length (Alphabets v)) /\ 0 < Length v /\
  RandomSource v = rand_Reader /\
  Alphabets v = (if decide (alphabets = []) then GenerateDefaultAlphabets
                 else alphabets).
Proof.
  unfold NewVigenere.
  set (al := if Z.of_nat (length alphabets) =? 0 then _ else _).
  assert (Hal : al = if decide (alphabets = []) then GenerateDefaultAlphabets
                     else alphabets).
  { unfold al. destruct alphabets; simpl; [done|].
    destruct (Z.eqb_spec (Z.pos (Pos.of_succ_nat (length alphabets))) 0);
      [lia|done]. }
  assert (Hpos : 0 < Z.of_nat (length al)).
  { rewrite Hal. destruct (decide _) as [|Hne]; [by vm_compute|].
    destruct alphabets; [done|simpl; lia]. }
  destruct (NewVigenere_loop ∅ al) eqn:Hloop; [discriminate|].
  apply NewVigenere_loop_NoDup in Hloop.
  intros [= <- <-]. simpl. by rewrite <- Hal.
Qed.

Lemma ConvertToNumeric_eq v str :
  ConvertToNumeric v str =
  flat_map (fun r => ConvertToNumeric_scan (Alphabets v) 0 r []) (Go.runes str).
Proof. unfold ConvertToNumeric. by rewrite ConvertToNumeric_fold. Qed.

(** [ConvertToNumeric] only gives indices of the alphabet, whatever the
    text. *)
Lemma ConvertToNumeric_in_range v str :
  Forall (in_range v) (ConvertToNumeric v str).
Proof.
  rewrite ConvertToNumeric_eq.
  induction (Go.runes str) as [|r rs IH]; simpl; [constructor|].
  apply Forall_app. split; [|done].
  eapply Forall_impl; [apply ConvertToNumeric_scan_range|].
  unfold in_range. simpl. intros; lia.
Qed.

(** On indices of the alphabet the loop of [ConvertToString] does not
    panic, and gives one symbol for each. *)
Lemma ConvertToString_loop_in_range alphabets numbers str :
  Forall (fun num => 0 <= num < Z.of_nat (length alphabets)) numbers ->
  exists symbols,
    ConvertToString_loop alphabets numbers str = Go.Ret (str ++ symbols) /\
    Forall2 (fun num a => alphabets !! Z.to_nat num = Some a) numbers symbols.
Proof.
  revert str. induction numbers as [|num rest IH]; intros str Hall.
  - exists []. simpl. rewrite app_nil_r. split; [done|constructor].
  - apply Forall_cons in Hall as [Hn Hall]. simpl.
    destruct (index_in_range Go.IndexOutOfRange_Alphabets alphabets num Hn)
      as [a Ha].
    rewrite Ha. simpl.
    destruct (IH (str ++ [a]) Hall) as (symbols & Hloop & Hsym).
    exists (a :: symbols). rewrite Hloop, <- app_assoc. split; [done|].
    constructor; [|done]. by apply index_inv in Ha as [_ ?].
Qed.

Lemma ConvertToString_in_range v numbers :
  Forall (in_range v) numbers ->
  exists symbols,
    ConvertToString v numbers = Go.Ret (Go.join symbols) /\
    Forall2 (fun num a => Alphabets v !! Z.to_nat num = Some a) numbers symbols.
Proof.
  intros Hall. unfold ConvertToString.
  destruct (ConvertToString_loop_in_range (Alphabets v) numbers [] Hall)
    as (symbols & -> & Hsym).
  by exists symbols.
Qed.

(** The indices that the loop of [Encrypt] computes. *)
Lemma Encrypt_loop_in_range L numericSecret i numericPlaintext ciphertext out :
  0 < L < 2 ^ 62 ->
  Forall (fun num => 0 <= num < L) numericSecret ->
  Forall (fun num => 0 <= num < L) numericPlaintext ->
  Forall (fun num => 0 <= num < L) ciphertext ->
  Encrypt_loop L numericSecret i numericPlaintext ciphertext = Go.Ret out ->
  Forall (fun num => 0 <= num < L) out.
Proof.
  intros HL Hs. revert i ciphertext.
  induction numericPlaintext as [|char rest IH]; intros i ciphertext Hp Hc;
    simpl.
  - by intros [= <-].
  - apply Forall_cons in Hp as [Hchar Hp].
    destruct (Go.index _ numericSecret i) as [s|] eqn:Hidx; [|discriminate].
    simpl. destruct (Z.eqb_spec L 0); [lia|].
    apply IH; [done|].
    apply Forall_app. split; [done|]. apply Forall_singleton.
    apply index_inv in Hidx as [_ Hidx].
    rewrite Forall_forall in Hs.
    specialize (Hs s (list_elem_of_lookup_2 _ _ _ Hidx)).
    rewrite GoFacts.int64_small by lia.
    rewrite Z.rem_mod_nonneg by lia.
    apply Z.mod_pos_bound. lia.
Qed.

(** The indices that the loop of [Decrypt] computes. *)
Lemma Decrypt_loop_in_range L numericSecret i numericCiphertext plaintext out :
  0 < L < 2 ^ 62 ->
  Forall (fun num => 0 <= num < L) numericSecret ->
  Forall (fun num => 0 <= num < L) numericCiphertext ->
  Forall (fun num => 0 <= num < L) plaintext ->
  Decrypt_loop L numericSecret i numericCiphertext plaintext = Go.Ret out ->
  Forall (fun num => 0 <= num < L) out.
Proof.
  intros HL Hs. revert i plaintext.
  induction numericCiphertext as [|char rest IH]; intros i plaintext Hc Hp;
    simpl.
  - by intros [= <-].
  - apply Forall_cons in Hc as [Hchar Hc].
    destruct (Go.index _ numericSecret i) as [s|] eqn:Hidx; [|discriminate].
    simpl. apply IH; [done|].
    apply Forall_app. split; [done|]. apply Forall_singleton.
    apply index_inv in Hidx as [_ Hidx].
    rewrite Forall_forall in Hs.
    specialize (Hs s (list_elem_of_lookup_2 _ _ _ Hidx)).
    rewrite (GoFacts.int64_small (char - s)) by lia.
    destruct (Z.ltb_spec (char - s) 0).
    + rewrite GoFacts.int64_small by lia. lia.
    + lia.
Qed.

(** With a secret of enough indices the loop of [Encrypt] adds index by
    index, modulo [L]. *)
Lemma Encrypt_loop_zip L S1 S2 P ciphertext :
  0 < L < 2 ^ 62 ->
  (length P <= length S2)%nat ->
  Forall (fun num => 0 <= num < L) S2 ->
  Forall (fun num => 0 <= num < L) P ->
  Encrypt_loop L (S1 ++ S2) (Z.of_nat (length S1)) P ciphertext
  = Go.Ret (ciphertext ++ zip_with (add_mod L) P S2).
Proof.
  intros HL. revert S1 S2 ciphertext.
  induction P as [|char P IH]; intros S1 S2 ciphertext Hlen HS HP; simpl.
  - by rewrite app_nil_r.
  - destruct S2 as [|s S2]; [simpl in Hlen; lia|].
    apply Forall_cons in HS as [Hs HS]. apply Forall_cons in HP as [Hchar HP].
    rewrite index_middle. simpl.
    destruct (Z.eqb_spec L 0); [lia|].
    replace (S1 ++ s :: S2) with ((S1 ++ [s]) ++ S2)
      by (by rewrite <- app_assoc).
    replace (Z.of_nat (length S1) + 1) with (Z.of_nat (length (S1 ++ [s])))
      by (rewrite length_app; simpl; lia).
    rewrite IH by (simpl in Hlen; try done; lia).
    rewrite <- app_assoc. simpl. unfold add_mod at 2.
    rewrite GoFacts.int64_small by lia.
    by rewrite Z.rem_mod_nonneg by lia.
Qed.

(** The loop of [Decrypt] subtracts index by index, and adds [L] to a
    negative difference. *)
Lemma Decrypt_loop_zip L S1 S2 C plaintext :
  0 < L < 2 ^ 62 ->
  (length C <= length S2)%nat ->
  Forall (fun num => 0 <= num < L) S2 ->
  Forall (fun num => 0 <= num < L) C ->
  Decrypt_loop L (S1 ++ S2) (Z.of_nat (length S1)) C plaintext
  = Go.Ret (plaintext ++ zip_with (sub_wrap L) C S2).
Proof.
  intros HL. revert S1 S2 plaintext.
  induction C as [|char C IH]; intros S1 S2 plaintext Hlen HS HC; simpl.
  - by rewrite app_nil_r.
  - destruct S2 as [|s S2]; [simpl in Hlen; lia|].
    apply Forall_cons in HS as [Hs HS]. apply Forall_cons in HC as [Hchar HC].
    rewrite index_middle. simpl.
    replace (S1 ++ s :: S2) with ((S1 ++ [s]) ++ S2)
      by (by rewrite <- app_assoc).
    replace (Z.of_nat (length S1) + 1) with (Z.of_nat (length (S1 ++ [s])))
      by (rewrite length_app; simpl; lia).
    rewrite IH by (simpl in Hlen; try done; lia).
    rewrite <- app_assoc. simpl. unfold sub_wrap at 2.
    rewrite (GoFacts.int64_small (char - s)) by lia.
    destruct (Z.ltb_spec (char - s) 0); [|done].
    by rewrite GoFacts.int64_small by lia.
Qed.

Lemma add_mod_in_range L char s : 0 < L -> 0 <= add_mod L char s < L.
Proof. intros HL. unfold add_mod. apply Z.mod_pos_bound. lia. Qed.

Lemma sub_wrap_in_range L char s :
  0 <= char < L -> 0 <= s < L -> 0 <= sub_wrap L char s < L.
Proof.
  intros Hc Hs. unfold sub_wrap. destruct (Z.ltb_spec (char - s) 0); lia.
Qed.

(** Subtracting the secret undoes adding it. *)
Lemma sub_wrap_add_mod L char s :
  0 <= char < L -> 0 <= s < L -> sub_wrap L (add_mod L char s) s = char.
Proof.
  intros Hc Hs. unfold sub_wrap, add_mod.
  destruct (Z.lt_ge_cases (s + char) L) as [Hlt|Hge].
  - rewrite Z.mod_small by lia.
    destruct (Z.ltb_spec (s + char - s) 0); lia.
  - assert (Hm : (s + char) mod L = s + char - L).
    { symmetry. apply (Z.mod_unique_pos _ _ 1); lia. }
    rewrite Hm. destruct (Z.ltb_spec (s + char - L - s) 0); lia.
Qed.

Lemma zip_with_add_mod_in_range L P S2 :
  0 < L -> Forall (fun num => 0 <= num < L) (zip_with (add_mod L) P S2).
Proof.
  intros HL. revert S2. induction P as [|char P IH]; intros [|s S2]; simpl;
    try constructor; [by apply add_mod_in_range|apply IH].
Qed.

Lemma zip_with_sub_wrap_in_range L C S2 :
  Forall (fun num => 0 <= num < L) C ->
  Forall (fun num => 0 <= num < L) S2 ->
  Forall (fun num => 0 <= num < L) (zip_with (sub_wrap L) C S2).
Proof.
  intros HC. revert S2. induction HC as [|char C Hc _ IH]; intros S2 HS;
    [constructor|].
  destruct HS as [|s S2 Hs HS]; simpl; constructor;
    [by apply sub_wrap_in_range|by apply IH].
Qed.

Lemma zip_with_sub_wrap_add_mod L P S2 :
  (length P <= length S2)%nat ->
  Forall (fun num => 0 <= num < L) P ->
  Forall (fun num => 0 <= num < L) S2 ->
  zip_with (sub_wrap L) (zip_with (add_mod L) P S2) S2 = P.
Proof.
  intros Hlen HP. revert S2 Hlen.
  induction HP as [|char P Hc _ IH]; intros S2 Hlen HS; [by destruct S2|].
  destruct HS as [|s S2 Hs HS]; simpl in *; [lia|].
  rewrite sub_wrap_add_mod by done. f_equal. apply IH; [lia|done].
Qed.

(** [ValidateString] decides whether every rune of the text, converted
    to a string, is a symbol of the alphabet. *)
Lemma ValidateString_loop_true set rs :
  Forall (fun r => map_get set (Go.string_of_rune r) = true) rs ->
  ValidateString_loop set rs = (true, None).
Proof.
  induction 1 as [|r rs Hr _ IH]; simpl; [done|]. by rewrite Hr.
Qed.

Lemma ValidateString_loop_false set pre r post :
  Forall (fun r => map_get set (Go.string_of_rune r) = true) pre ->
  map_get set (Go.string_of_rune r) = false ->
  ValidateString_loop set (pre ++ r :: post) = (false, Some errInvalidString).
Proof.
  induction 1 as [|r' rs Hr' _ IH]; simpl; intros Hr.
  - by rewrite Hr.
  - rewrite Hr'. simpl. by apply IH.
Qed.

Lemma ValidateString_loop_inv set rs :
  ValidateString_loop set rs = (true, None) ->
  Forall (fun r => map_get set (Go.string_of_rune r) = true) rs.
Proof.
  induction rs as [|r rs IH]; simpl; [constructor|].
  destruct (map_get set (Go.string_of_rune r)) eqn:Hr; simpl; [|discriminate].
  intros H. constructor; [done|by apply IH].
Qed.

Lemma ValidateString_set v x :
  map_get (fold_left (fun set alphabet => <[alphabet := true]> set)
                     (Alphabets v) ∅) x = true
  <-> x ∈ Alphabets v.
Proof.
  rewrite map_get_fold, map_get_empty. split; [|tauto].
  by intros [?|?].
Qed.

Lemma ValidateString_true v str :
  ValidateString v str = (true, None)
  <-> Forall (fun r => Go.string_of_rune r ∈ Alphabets v) (Go.runes str).
Proof.
  unfold ValidateString. split.
  - intros H%ValidateString_loop_inv.
    eapply Forall_impl; [exact H|]. intros r. apply ValidateString_set.
  - intros H. apply ValidateString_loop_true.
    eapply Forall_impl; [exact H|]. intros r. apply ValidateString_set.
Qed.

End PackageFacts.

(** ** Alphabets of ASCII characters

    When every symbol of the alphabet is one ASCII character, a byte of a
    valid text is a rune is a symbol, and [encodes] relates a text and its
    indices one to one. *)

Lemma runes_cons_ascii c str :
  Go.byte_of c < 0x80 -> Go.runes (String c str) = Go.byte_of c :: Go.runes str.
Proof.
  intros Hc. unfold Go.runes. simpl.
  by destruct (Z.ltb_spec (Go.byte_of c) 0x80); [|lia].
Qed.

Lemma runes_cons c str :
  Go.runes (String c str) =
  (Go.decoderune (String c str)).1 ::
  Go.runes_from (Nat.pred (Go.decoderune (String c str)).2) str.
Proof. unfold Go.runes. cbn [Go.runes_from]. by destruct (Go.decoderune _). Qed.

Lemma is_ascii_symbol_inv a :
  is_ascii_symbol a = true ->
  exists c, a = String c EmptyString /\ Go.byte_of c < 0x80.
Proof.
  destruct a as [|c [|? ?]]; simpl; try discriminate.
  intros H%Z.ltb_lt. by exists c.
Qed.

Section Encodes.

Context {Source : Type}.
Variable v : Vigenere Source.
Hypothesis alphabets_ascii : forallb is_ascii_symbol (Alphabets v) = true.

Lemma alphabets_ascii_elem a :
  a ∈ Alphabets v -> exists c, a = String c EmptyString /\ Go.byte_of c < 0x80.
Proof.
  intros Hin. apply is_ascii_symbol_inv.
  rewrite forallb_forall in alphabets_ascii.
  apply alphabets_ascii. by apply list_elem_of_In.
Qed.

Lemma encodes_length numeric str :
  encodes (Alphabets v) numeric str -> length numeric = String.length str.
Proof. induction 1; simpl; congruence. Qed.

Lemma encodes_in_range numeric str :
  encodes (Alphabets v) numeric str -> Forall (in_range v) numeric.
Proof.
  induction 1 as [|k c numeric str Hk Hl Hc _ IH]; constructor; [|done].
  apply lookup_lt_Some in Hl. unfold in_range. lia.
Qed.

(** Every valid text is encoded by some indices. *)
Lemma ValidateString_encodes str :
  ValidateString v str = (true, None) ->
  exists numeric, encodes (Alphabets v) numeric str.
Proof.
  rewrite ValidateString_true.
  induction str as [|c str IH]; intros Hvalid.
  - exists []. constructor.
  - rewrite runes_cons in Hvalid.
    destruct (Go.decoderune (String c str)) as [r w] eqn:Hdec.
    apply Forall_cons in Hvalid as [Hr Hrest]. simpl in Hr, Hrest.
    destruct (alphabets_ascii_elem _ Hr) as (c' & Hc' & Hlt).
    destruct (GoFacts.string_of_rune_one_byte _ _ Hc') as [Hr80 ->].
    destruct (GoFacts.decoderune_below_0x80 _ _ _ _ Hdec) as [-> ->]; [lia|].
    rewrite GoFacts.chr_byte_of in *. simpl in Hrest.
    destruct (IH Hrest) as [numeric Henc].
    rewrite Hc' in Hr. apply list_elem_of_lookup_1 in Hr as [k Hk].
    exists (Z.of_nat k :: numeric).
    constructor; [lia|by rewrite Nat2Z.id|done|done].
Qed.

(** Every sequence of indices of the alphabet encodes some text. *)
Lemma in_range_encodes numeric :
  Forall (in_range v) numeric -> exists str, encodes (Alphabets v) numeric str.
Proof.
  induction 1 as [|k numeric Hk _ [str Henc]].
  - exists EmptyString. constructor.
  - unfold in_range in Hk.
    destruct (lookup_lt_is_Some_2 (Alphabets v) (Z.to_nat k)) as [a Ha]; [lia|].
    destruct (alphabets_ascii_elem a) as (c & -> & Hc);
      [by eapply list_elem_of_lookup_2|].
    exists (String c str). constructor; [lia|done|done|done].
Qed.

(** [ConvertToString] gives back the text that the indices encode. *)
Lemma encodes_ConvertToString numeric str :
  encodes (Alphabets v) numeric str ->
  ConvertToString v numeric = Go.Ret str.
Proof.
  intros Henc.
  destruct (ConvertToString_in_range v numeric (encodes_in_range _ _ Henc))
    as (symbols & -> & Hsym).
  f_equal. revert symbols Hsym.
  induction Henc as [|k c numeric str Hk Hl Hc _ IH]; intros symbols Hsym.
  - by apply Forall2_nil_inv_l in Hsym as ->.
  - apply Forall2_cons_inv_l in Hsym as (a & symbols' & Ha & Hsym & ->).
    rewrite Hl in Ha. injection Ha as <-. simpl. f_equal. by apply IH.
Qed.

(** In a duplicate-free alphabet [ConvertToNumeric] gives the indices
    that encode the text. *)
Lemma encodes_ConvertToNumeric numeric str :
  NoDup (Alphabets v) ->
  encodes (Alphabets v) numeric str ->
  ConvertToNumeric v str = numeric.
Proof.
  intros Hnd. rewrite ConvertToNumeric_eq.
  induction 1 as [|k c numeric str Hk Hl Hc _ IH]; [done|].
  rewrite runes_cons_ascii by done. simpl. rewrite IH.
  rewrite (ConvertToNumeric_scan_NoDup _ _ _ (Z.to_nat k)); [|done|].
  - simpl. f_equal. lia.
  - pose proof (GoFacts.byte_of_range c).
    rewrite GoFacts.string_of_rune_below_0x80 by lia.
    by rewrite GoFacts.chr_byte_of.
Qed.

(** The text that indices encode is valid, and has one rune for each
    byte. *)
Lemma encodes_ValidateString numeric str :
  encodes (Alphabets v) numeric str -> ValidateString v str = (true, None).
Proof.
  rewrite ValidateString_true.
  induction 1 as [|k c numeric str Hk Hl Hc _ IH]; [constructor|].
  rewrite runes_cons_ascii by done. constructor; [|done].
  pose proof (GoFacts.byte_of_range c).
  rewrite GoFacts.string_of_rune_below_0x80, GoFacts.chr_byte_of by lia.
  by eapply list_elem_of_lookup_2.
Qed.

Lemma encodes_runes_length numeric str :
  encodes (Alphabets v) numeric str ->
  length (Go.runes str) = String.length str.
Proof.
  induction 1 as [|k c numeric str Hk Hl Hc _ IH]; [done|].
  rewrite runes_cons_ascii by done. simpl. by rewrite IH.
Qed.

End Encodes.

(** A duplicate-free alphabet of ASCII characters has at most 128
    symbols. *)
Lemma ascii_alphabet_length (alphabets : list string) :
  NoDup alphabets -> forallb is_ascii_symbol alphabets = true ->
  (length alphabets <= 128)%nat.
Proof.
  intros Hnd Hascii.
  set (all := (fun n => String (Go.chr n) EmptyString) <$> seqZ 0 128).
  assert (Hsub : alphabets ⊆+ all).
  { apply NoDup_submseteq; [done|]. intros a Hin.
    rewrite forallb_forall in Hascii.
    destruct (is_ascii_symbol_inv a) as (c & -> & Hc);
      [by apply Hascii, list_elem_of_In|].
    pose proof (GoFacts.byte_of_range c).
    apply list_elem_of_fmap. exists (Go.byte_of c).
    split; [by rewrite GoFacts.chr_byte_of|].
    apply elem_of_seqZ. lia. }
  apply submseteq_length in Hsub.
  unfold all in Hsub. by rewrite length_fmap, length_seqZ in Hsub.
Qed.

Section Cipher.

Context {Source : Type}.
Variable v : Vigenere Source.
Hypothesis alphabets_NoDup : NoDup (Alphabets v).
Hypothesis alphabets_ascii : forallb is_ascii_symbol (Alphabets v) = true.
Hypothesis Length_eq : Length v = Z.of_nat (length (Alphabets v)).
Hypothesis Length_pos : 0 < Length v.

Lemma Length_small : 0 < Length v < 2 ^ 62.
Proof.
  pose proof (ascii_alphabet_length _ alphabets_NoDup alphabets_ascii).
  split; [done|]. rewrite Length_eq.
  apply Z.le_lt_trans with 128; [lia|done].
Qed.

Lemma in_range_Length numeric :
  Forall (in_range v) numeric <-> Forall (fun num => 0 <= num < Length v) numeric.
Proof. unfold in_range. by rewrite Length_eq. Qed.

(** [Encrypt] on encoded texts: the text of the sums. *)
Lemma Encrypt_encodes P S plaintext secret :
  encodes (Alphabets v) P plaintext ->
  encodes (Alphabets v) S secret ->
  Go.len plaintext <= Go.len secret ->
  exists ciphertext,
    encodes (Alphabets v) (zip_with (add_mod (Length v)) P S) ciphertext /\
    Encrypt v plaintext secret = Go.Ret (ciphertext, None).
Proof.
  intros HP HS Hlen.
  pose proof Length_small as HL.
  destruct (in_range_encodes v alphabets_ascii
              (zip_with (add_mod (Length v)) P S)) as [ciphertext HC].
  { apply in_range_Length, zip_with_add_mod_in_range. lia. }
  exists ciphertext. split; [done|].
  unfold Encrypt.
  destruct (Z.ltb_spec (Go.len secret) (Go.len plaintext)); [lia|].
  rewrite (encodes_ConvertToNumeric v _ _ alphabets_NoDup HP).
  rewrite (encodes_ConvertToNumeric v _ _ alphabets_NoDup HS).
  pose proof (Encrypt_loop_zip (Length v) [] S P []) as Hloop.
  change (Z.of_nat (length [])) with 0 in Hloop. simpl in Hloop. rewrite Hloop; clear Hloop.
  - simpl. by rewrite (encodes_ConvertToString v _ _ HC).
  - done.
  - rewrite (encodes_length v _ _ HP), (encodes_length v _ _ HS).
    unfold Go.len in Hlen. lia.
  - by apply in_range_Length, (encodes_in_range v _ secret).
  - by apply in_range_Length, (encodes_in_range v _ plaintext).
Qed.

(** [Decrypt] on encoded texts: the text of the differences. *)
Lemma Decrypt_encodes C S ciphertext secret :
  encodes (Alphabets v) C ciphertext ->
  encodes (Alphabets v) S secret ->
  Go.len ciphertext <= Go.len secret ->
  exists plaintext,
    encodes (Alphabets v) (zip_with (sub_wrap (Length v)) C S) plaintext /\
    Decrypt v ciphertext secret = Go.Ret (plaintext, None).
Proof.
  intros HC HS Hlen.
  pose proof Length_small as HL.
  assert (HCr : Forall (fun num => 0 <= num < Length v) C)
    by (by apply in_range_Length, (encodes_in_range v _ ciphertext)).
  assert (HSr : Forall (fun num => 0 <= num < Length v) S)
    by (by apply in_range_Length, (encodes_in_range v _ secret)).
  destruct (in_range_encodes v alphabets_ascii
              (zip_with (sub_wrap (Length v)) C S)) as [plaintext HP].
  { by apply in_range_Length, zip_with_sub_wrap_in_range. }
  exists plaintext. split; [done|].
  unfold Decrypt.
  destruct (Z.ltb_spec (Go.len secret) (Go.len ciphertext)); [lia|].
  rewrite (encodes_ConvertToNumeric v _ _ alphabets_NoDup HC).
  rewrite (encodes_ConvertToNumeric v _ _ alphabets_NoDup HS).
  pose proof (Decrypt_loop_zip (Length v) [] S C []) as Hloop.
  change (Z.of_nat (length [])) with 0 in Hloop. simpl in Hloop. rewrite Hloop; clear Hloop; try done.
  - simpl. by rewrite (encodes_ConvertToString v _ _ HP).
  - rewrite (encodes_length v _ _ HC), (encodes_length v _ _ HS).
    unfold Go.len in Hlen. lia.
Qed.

(** Two texts with the same indices are the same text. *)
Lemma encodes_inj numeric str1 str2 :
  encodes (Alphabets v) numeric str1 -> encodes (Alphabets v) numeric str2 ->
  str1 = str2.
Proof.
  intros H1 H2.
  apply (encodes_ConvertToString v) in H1, H2. congruence.
Qed.

End Cipher.

Section RandomSource.

Context {Source : Type}.
Variable rand_Int : Source -> Z -> Source * (Z + error).
Variable v : Vigenere Source.
Hypothesis Length_pos : 0 < Length v.

Lemma GenerateSecretKey_loop_draws src rs secret numbers src' :
  draws rand_Int (Length v) src numbers src' ->
  length numbers = length rs ->
  GenerateSecretKey_loop rand_Int (with_source v src) rs secret
  = (src', Go.Ret (inl (secret ++ (Go.int64 <$> numbers)))).
Proof.
  intros Hdraws. revert rs secret.
  induction Hdraws as [src|src src1 number numbers src' Hdraw _ IH];
    intros rs secret Hlen.
  - destruct rs; [|done]. simpl. by rewrite app_nil_r.
  - destruct rs as [|r rs]; [done|]. simpl.
    unfold GenerateRandomNumber. simpl.
    destruct (Z.leb_spec (Length v) 0); [lia|].
    rewrite Hdraw.
    change (with_source (with_source v src) src1) with (with_source v src1).
    rewrite IH by (simpl in Hlen; lia).
    by rewrite <- app_assoc.
Qed.

Lemma GenerateSecretKey_loop_error src rs secret numbers src1 src2 err :
  draws rand_Int (Length v) src numbers src1 ->
  rand_Int src1 (Length v) = (src2, inr err) ->
  (length numbers < length rs)%nat ->
  GenerateSecretKey_loop rand_Int (with_source v src) rs secret
  = (src2, Go.Ret (inr err)).
Proof.
  intros Hdraws Herr. revert rs secret.
  induction Hdraws as [src|src src1 number numbers src' Hdraw _ IH];
    intros rs secret Hlen.
  - destruct rs as [|r rs]; [simpl in Hlen; lia|]. simpl.
    unfold GenerateRandomNumber. simpl.
    destruct (Z.leb_spec (Length v) 0); [lia|].
    by rewrite Herr.
  - destruct rs as [|r rs]; [simpl in Hlen; lia|]. simpl.
    unfold GenerateRandomNumber. simpl.
    destruct (Z.leb_spec (Length v) 0); [lia|].
    rewrite Hdraw.
    change (with_source (with_source v src) src1) with (with_source v src1).
    apply IH; [done|]. simpl in Hlen. lia.
Qed.

End RandomSource.

Lemma join_length_one (symbols : list string) :
  Forall (fun a => String.length a = 1%nat) symbols ->
  String.length (Go.join symbols) = length symbols.
Proof.
  induction 1 as [|a symbols Ha _ IH]; [done|].
  destruct a as [|c [|? ?]]; simpl in Ha; try done.
  simpl. f_equal. exact IH.
Qed.

(** ** Properties of the package *)

Section Properties.

Context {Source : Type}.
Variable rand_Reader : Source.
Variable rand_Int : Source -> Z -> Source * (Z + error).
Implicit Types (v : Vigenere Source) (alphabets : list string).

(** C2.  With the default alphabet A-Z, [Encrypt("HELLO", "PLUTO")]
    returns ["WPFEC"] and no error, and [Decrypt("WPFEC", "PLUTO")]
    returns ["HELLO"] and no error; with the alphabet of the nine symbols
    A to I, [Encrypt("HI", "EF")] returns ["CE"] and no error. *)
Theorem Encrypt_Decrypt_scenarios :
  (exists v, NewVigenere rand_Reader [] = (Some v, None) /\
     Encrypt v "HELLO" "PLUTO" = Go.Ret ("WPFEC", None) /\
     Decrypt v "WPFEC" "PLUTO" = Go.Ret ("HELLO", None)) /\
  (exists v,
     NewVigenere rand_Reader ["A"; "B"; "C"; "D"; "E"; "F"; "G"; "H"; "I"]
       = (Some v, None) /\
     Encrypt v "HI" "EF" = Go.Ret ("CE", None)).
Proof.
  split; eexists; (split; [reflexivity|]); try split; reflexivity.
Qed.

Lemma Encrypt_past_guard v plaintext secret out err :
  Go.len plaintext <= Go.len secret ->
  Encrypt v plaintext secret = Go.Ret (out, err) -> err = None.
Proof.
  intros Hlen. unfold Encrypt.
  destruct (Z.ltb_spec (Go.len secret) (Go.len plaintext)); [lia|].
  destruct (Encrypt_loop _ _ _ _ _); [|discriminate]. simpl.
  destruct (ConvertToString _ _); [|discriminate]. simpl.
  by intros [= _ <-].
Qed.

Lemma Decrypt_past_guard v ciphertext secret out err :
  Go.len ciphertext <= Go.len secret ->
  Decrypt v ciphertext secret = Go.Ret (out, err) -> err = None.
Proof.
  intros Hlen. unfold Decrypt.
  destruct (Z.ltb_spec (Go.len secret) (Go.len ciphertext)); [lia|].
  destruct (Decrypt_loop _ _ _ _ _); [|discriminate]. simpl.
  destruct (ConvertToString _ _); [|discriminate]. simpl.
  by intros [= _ <-].
Qed.

(** C3.  [Encrypt(plaintext, secret)] returns the length-mismatch error
    of [Encrypt] if and only if [len(secret) < len(plaintext)], and
    [Decrypt(ciphertext, secret)] returns that of [Decrypt] if and only if
    [len(secret) < len(ciphertext)]; whenever either returns an error, it
    is that error and the string returned with it is empty. *)
Theorem length_mismatch_iff v text secret :
  ((exists out, Encrypt v text secret = Go.Ret (out, Some errEncryptLengthNotEqual))
     <-> Go.len secret < Go.len text) /\
  ((exists out, Decrypt v text secret = Go.Ret (out, Some errDecryptLengthNotEqual))
     <-> Go.len secret < Go.len text) /\
  (forall out err, Encrypt v text secret = Go.Ret (out, Some err) ->
     out = EmptyString /\ err = errEncryptLengthNotEqual) /\
  (forall out err, Decrypt v text secret = Go.Ret (out, Some err) ->
     out = EmptyString /\ err = errDecryptLengthNotEqual).
Proof.
  destruct (Z.lt_ge_cases (Go.len secret) (Go.len text)) as [Hlt|Hge].
  - assert (He : Encrypt v text secret
                 = Go.Ret (EmptyString, Some errEncryptLengthNotEqual)).
    { unfold Encrypt.
      by destruct (Z.ltb_spec (Go.len secret) (Go.len text)); [|lia]. }
    assert (Hd : Decrypt v text secret
                 = Go.Ret (EmptyString, Some errDecryptLengthNotEqual)).
    { unfold Decrypt.
      by destruct (Z.ltb_spec (Go.len secret) (Go.len text)); [|lia]. }
    rewrite He, Hd. split_and!; try (split; [done|by eexists]);
      by intros out err [= <- <-].
  - split_and!.
    + split; [|lia]. intros [out H].
      by apply Encrypt_past_guard in H.
    + split; [|lia]. intros [out H].
      by apply Decrypt_past_guard in H.
    + intros out err H. by apply Encrypt_past_guard in H.
    + intros out err H. by apply Decrypt_past_guard in H.
Qed.

(** C10.  The empty text is accepted everywhere: [Encrypt] and [Decrypt]
    of the empty text return the empty string and no error for every
    secret, the empty one too, and [GenerateSecretKey] of the empty text
    returns the empty string and no error and leaves the random source as
    it was, whatever [rand.Int] would do. *)
Theorem empty_text_accepted v secret :
  Encrypt v EmptyString secret = Go.Ret (EmptyString, None) /\
  Decrypt v EmptyString secret = Go.Ret (EmptyString, None) /\
  Encrypt v EmptyString EmptyString = Go.Ret (EmptyString, None) /\
  Decrypt v EmptyString EmptyString = Go.Ret (EmptyString, None) /\
  GenerateSecretKey rand_Int v EmptyString
    = (RandomSource v, Go.Ret (EmptyString, None)).
Proof.
  assert (H : forall s, (Go.len s <? Go.len EmptyString) = false).
  { intros s. apply Z.ltb_ge. unfold Go.len. simpl. lia. }
  unfold Encrypt, Decrypt. rewrite !H. by split_and!.
Qed.

(** C7.  [ValidateString(text)] returns [true] and no error exactly when
    every rune of [text], as a string, is a symbol of the alphabet;
    otherwise it returns [false] and the invalid-string error, and does so
    at the first rune that is not a symbol, whatever follows it.  With the
    default alphabet, ["HELLO"] is valid, ["123"] and [".,;'[]"] are
    not. *)
Theorem ValidateString_spec v text :
  (Forall (fun r => Go.string_of_rune r ∈ Alphabets v) (Go.runes text) ->
   ValidateString v text = (true, None)) /\
  (forall pre r post,
     Go.runes text = pre ++ r :: post ->
     Forall (fun r => Go.string_of_rune r ∈ Alphabets v) pre ->
     Go.string_of_rune r ∉ Alphabets v ->
     ValidateString v text = (false, Some errInvalidString)) /\
  (ValidateString v text = (true, None) \/
   ValidateString v text = (false, Some errInvalidString)) /\
  (exists v0, NewVigenere rand_Reader [] = (Some v0, None) /\
     ValidateString v0 "HELLO" = (true, None) /\
     ValidateString v0 "123" = (false, Some errInvalidString) /\
     ValidateString v0 ".,;'[]" = (false, Some errInvalidString)).
Proof.
  split_and!.
  - apply ValidateString_true.
  - intros pre r post Hrunes Hpre Hr. unfold ValidateString. rewrite Hrunes.
    apply ValidateString_loop_false.
    + eapply Forall_impl; [exact Hpre|]. intros r'. apply ValidateString_set.
    + destruct (map_get _ _) eqn:Hget; [|done].
      by apply ValidateString_set in Hget.
  - unfold ValidateString. generalize (Go.runes text) as rs.
    induction rs as [|r rs IH]; simpl; [by left|].
    destruct (map_get _ _); simpl; [exact IH|by right].
  - eexists. split; [reflexivity|]. by split_and!.
Qed.

(** C8.  [NewVigenere] with no symbols gives the alphabet of the 26
    letters A to Z, in order; with a sequence in which a symbol is
    repeated it fails with the duplicate error (so for [{"A","A","B"}]),
    from the first repeated symbol on whatever follows; with a
    duplicate-free sequence it succeeds and keeps the sequence (so for
    [{"A","B","C"}]). *)
Theorem NewVigenere_spec :
  NewVigenere rand_Reader [] =
    (Some {| Alphabets :=
               ["A"; "B"; "C"; "D"; "E"; "F"; "G"; "H"; "I"; "J"; "K"; "L";
                "M"; "N"; "O"; "P"; "Q"; "R"; "S"; "T"; "U"; "V"; "W"; "X";
                "Y"; "Z"];
             Length := 26; RandomSource := rand_Reader |}, None) /\
  (forall alphabets, ~ NoDup alphabets ->
     NewVigenere rand_Reader alphabets = (None, Some errDuplicateAlphabets)) /\
  (forall pre x post, x ∈ pre ->
     NewVigenere rand_Reader (pre ++ x :: post)
       = (None, Some errDuplicateAlphabets)) /\
  (forall alphabets, alphabets <> [] -> NoDup alphabets ->
     NewVigenere rand_Reader alphabets =
       (Some {| Alphabets := alphabets;
                Length := Z.of_nat (length alphabets);
                RandomSource := rand_Reader |}, None)) /\
  NewVigenere rand_Reader ["A"; "A"; "B"] = (None, Some errDuplicateAlphabets) /\
  NewVigenere rand_Reader ["A"; "B"; "C"] =
    (Some {| Alphabets := ["A"; "B"; "C"]; Length := 3;
             RandomSource := rand_Reader |}, None).
Proof.
  assert (Hdup : forall alphabets, ~ NoDup alphabets ->
    NewVigenere rand_Reader alphabets = (None, Some errDuplicateAlphabets)).
  { intros alphabets Hnd. unfold NewVigenere.
    destruct alphabets as [|a rest]; [destruct Hnd; constructor|].
    destruct (Z.eqb_spec (Z.of_nat (length (a :: rest))) 0) as [H0|_];
      [simpl in H0; lia|].
    destruct (NewVigenere_loop ∅ (a :: rest)) as [err|] eqn:Hloop.
    - by apply NewVigenere_loop_error in Hloop as ->.
    - by apply NewVigenere_loop_NoDup in Hloop. }
  split_and!; try reflexivity; [exact Hdup| |].
  - intros pre x post Hin. apply Hdup. intros Hnd.
    apply NoDup_app in Hnd as (_ & Hdisj & _).
    apply (Hdisj x Hin). by left.
  - intros alphabets Hne Hnd. unfold NewVigenere.
    destruct alphabets as [|a rest]; [done|].
    destruct (Z.eqb_spec (Z.of_nat (length (a :: rest))) 0) as [H0|_];
      [simpl in H0; lia|].
    apply NewVigenere_loop_NoDup in Hnd. by rewrite Hnd.
Qed.

(** C4.  In a context that [NewVigenere] has built, whatever the text and
    the secret, every index that [Encrypt] and [Decrypt] pass to
    [ConvertToString] is an index of the alphabet, [ConvertToString]
    returns on it, and neither operation ends in the index-out-of-range
    panic of [ConvertToString].  (The alphabet has fewer than 2^62
    symbols, as every slice of strings has.) *)
Theorem ConvertToString_index_in_range alphabets v text secret :
  NewVigenere rand_Reader alphabets = (Some v, None) ->
  Z.of_nat (length (Alphabets v)) < 2 ^ 62 ->
  (forall ciphertext,
     Encrypt_loop (Length v) (ConvertToNumeric v secret) 0
                  (ConvertToNumeric v text) [] = Go.Ret ciphertext ->
     Forall (in_range v) ciphertext /\
     exists str, ConvertToString v ciphertext = Go.Ret str) /\
  (forall plaintext,
     Decrypt_loop (Length v) (ConvertToNumeric v secret) 0
                  (ConvertToNumeric v text) [] = Go.Ret plaintext ->
     Forall (in_range v) plaintext /\
     exists str, ConvertToString v plaintext = Go.Ret str) /\
  Encrypt v text secret <> Go.Panic Go.IndexOutOfRange_Alphabets /\
  Decrypt v text secret <> Go.Panic Go.IndexOutOfRange_Alphabets.
Proof.
  intros Hnew Hsmall.
  apply NewVigenere_Some in Hnew as (_ & _ & HL & Hpos & _ & _).
  assert (Hnum : forall str,
    Forall (fun num => 0 <= num < Length v) (ConvertToNumeric v str)).
  { intros str. rewrite HL. apply ConvertToNumeric_in_range. }
  assert (He : forall ciphertext,
     Encrypt_loop (Length v) (ConvertToNumeric v secret) 0
                  (ConvertToNumeric v text) [] = Go.Ret ciphertext ->
     Forall (in_range v) ciphertext /\
     exists str, ConvertToString v ciphertext = Go.Ret str).
  { intros ciphertext Hloop.
    assert (Hr : Forall (in_range v) ciphertext).
    { unfold in_range. rewrite <- HL.
      eapply Encrypt_loop_in_range; [| | | |exact Hloop]; try done. lia. }
    split; [done|].
    destruct (ConvertToString_in_range v ciphertext Hr) as (symbols & -> & _).
    by eexists. }
  assert (Hd : forall plaintext,
     Decrypt_loop (Length v) (ConvertToNumeric v secret) 0
                  (ConvertToNumeric v text) [] = Go.Ret plaintext ->
     Forall (in_range v) plaintext /\
     exists str, ConvertToString v plaintext = Go.Ret str).
  { intros plaintext Hloop.
    assert (Hr : Forall (in_range v) plaintext).
    { unfold in_range. rewrite <- HL.
      eapply Decrypt_loop_in_range; [| | | |exact Hloop]; try done. lia. }
    split; [done|].
    destruct (ConvertToString_in_range v plaintext Hr) as (symbols & -> & _).
    by eexists. }
  split_and!; [exact He|exact Hd| |].
  - unfold Encrypt. destruct (_ <? _); [done|].
    destruct (Encrypt_loop _ _ _ _ _) as [ciphertext|q] eqn:Hloop; simpl.
    + destruct (He _ eq_refl) as [_ [str ->]]. done.
    + apply Encrypt_loop_Panic in Hloop as [->| ->]; done.
  - unfold Decrypt. destruct (_ <? _); [done|].
    destruct (Decrypt_loop _ _ _ _ _) as [plaintext|q] eqn:Hloop; simpl.
    + destruct (Hd _ eq_refl) as [_ [str ->]]. done.
    + apply Decrypt_loop_Panic in Hloop as ->. done.
Qed.

(** C5, amended.  In a context that [NewVigenere] has built, with any
    random source bound to it, when the draws from the source do not
    fail, [GenerateSecretKey(text)] returns no error and a key made of
    one symbol of the alphabet for each rune of [text]; so
    [len(key) == len(text)] when every symbol of the alphabet is one byte
    and every rune of [text] is one byte.  (The numbers drawn are at
    least zero and less than the bound, as [rand.Int] promises, and the
    alphabet has fewer than 2^62 symbols.) *)
Theorem GenerateSecretKey_symbols alphabets v src text numbers src' :
  NewVigenere rand_Reader alphabets = (Some v, None) ->
  Z.of_nat (length (Alphabets v)) < 2 ^ 62 ->
  draws rand_Int (Length v) src numbers src' ->
  Forall (fun number => 0 <= number < Length v) numbers ->
  length numbers = length (Go.runes text) ->
  exists symbols,
    GenerateSecretKey rand_Int (with_source v src) text
      = (src', Go.Ret (Go.join symbols, None)) /\
    length symbols = length (Go.runes text) /\
    Forall (fun a => a ∈ Alphabets v) symbols /\
    (Forall (fun a => String.length a = 1%nat) (Alphabets v) ->
     length (Go.runes text) = String.length text ->
     Go.len (Go.join symbols) = Go.len text).
Proof.
  intros Hnew Hsmall Hdraws Hnum Hlen.
  apply NewVigenere_Some in Hnew as (_ & _ & HL & Hpos & _ & _).
  assert (Hid : Go.int64 <$> numbers = numbers).
  { clear Hlen Hdraws. induction Hnum as [|n ns Hn _ IH]; [done|].
    rewrite fmap_cons, IH, GoFacts.int64_small; [done|lia]. }
  unfold GenerateSecretKey.
  rewrite (GenerateSecretKey_loop_draws rand_Int v Hpos src _ [] numbers src')
    by done.
  rewrite Hid. simpl.
  destruct (ConvertToString_in_range (with_source v src) numbers)
    as (symbols & Hstr & Hsym).
  { unfold in_range. simpl. by rewrite <- HL. }
  exists symbols. rewrite Hstr. simpl. simpl in Hsym.
  assert (Hlens : length symbols = length (Go.runes text)).
  { rewrite <- Hlen. symmetry. by eapply Forall2_length. }
  assert (Hin : Forall (fun a => a ∈ Alphabets v) symbols).
  { clear -Hsym. induction Hsym as [|n a ns symbols Ha _ IH];
      [constructor|].
    constructor; [by eapply list_elem_of_lookup_2|done]. }
  split_and!; try done.
  intros Hone Hbytes. unfold Go.len.
  rewrite join_length_one, Hlens, Hbytes; [done|].
  eapply Forall_impl; [exact Hin|]. intros a Ha.
  rewrite Forall_forall in Hone. by apply Hone.
Qed.

(** C9.  When a draw fails during [GenerateSecretKey], the draws before
    it having succeeded, the call returns the error of that draw and the
    empty string, and leaves the source as the failed draw left it: the
    numbers drawn so far are dropped and nothing more is read.
    [GenerateRandomNumber] returns the error of a failed [rand.Int] as it
    is, after that one call. *)
Theorem GenerateSecretKey_error v text numbers src1 src2 err :
  0 < Length v ->
  draws rand_Int (Length v) (RandomSource v) numbers src1 ->
  (length numbers < length (Go.runes text))%nat ->
  rand_Int src1 (Length v) = (src2, inr err) ->
  GenerateSecretKey rand_Int v text = (src2, Go.Ret (EmptyString, Some err)) /\
  GenerateRandomNumber rand_Int (with_source v src1)
    = (src2, Go.Ret (0, Some err)).
Proof.
  intros Hpos Hdraws Hlen Herr. split.
  - unfold GenerateSecretKey.
    replace v with (with_source v (RandomSource v)) at 1 by (by destruct v).
    by rewrite (GenerateSecretKey_loop_error rand_Int v Hpos _ _ []
                  numbers src1 src2 err).
  - unfold GenerateRandomNumber. simpl.
    destruct (Z.leb_spec (Length v) 0); [lia|].
    by rewrite Herr.
Qed.

End Properties.

(** ** The properties at concrete inputs *)

(** The failure of the package's own test [test_failure_encrypt]. *)
Lemma length_mismatch_iff_witness :
  Go.len "A" < Go.len "VIGENERECIPHER" /\
  exists out, Encrypt (Scripted.default []) "VIGENERECIPHER" "A"
              = Go.Ret (out, Some errEncryptLengthNotEqual).
Proof.
  split; [reflexivity|].
  destruct (length_mismatch_iff (Scripted.default []) "VIGENERECIPHER" "A")
    as [[_ H] _].
  apply H. reflexivity.
Defined.

Lemma ConvertToString_index_in_range_witness :
  NewVigenere [] [] = (Some (Scripted.default []), None) /\
  Z.of_nat (length (Alphabets (Scripted.default []))) < 2 ^ 62 /\
  Encrypt (Scripted.default []) "HELLO" "PLUTO"
    <> Go.Panic Go.IndexOutOfRange_Alphabets /\
  Decrypt (Scripted.default []) "HELLO" "PLUTO"
    <> Go.Panic Go.IndexOutOfRange_Alphabets.
Proof.
  split; [reflexivity|]. split; [reflexivity|].
  apply (ConvertToString_index_in_range [] [] (Scripted.default [])
           "HELLO" "PLUTO"); reflexivity.
Defined.

(** Three draws that succeed, for a text of three runes. *)
Lemma GenerateSecretKey_symbols_witness :
  NewVigenere [] [] = (Some (Scripted.default []), None) /\
  draws Scripted.rand_Int 26 [inl 7; inl 30; inl 100] [7; 4; 22] [] /\
  exists symbols,
    GenerateSecretKey Scripted.rand_Int
      (with_source (Scripted.default []) [inl 7; inl 30; inl 100]) "ABC"
      = ([], Go.Ret (Go.join symbols, None)) /\
    length symbols = length (Go.runes "ABC") /\
    Forall (fun a => a ∈ Alphabets (Scripted.default [])) symbols /\
    (Forall (fun a => String.length a = 1%nat)
            (Alphabets (Scripted.default [])) ->
     length (Go.runes "ABC") = String.length "ABC" ->
     Go.len (Go.join symbols) = Go.len "ABC").
Proof.
  assert (Hdraws : draws Scripted.rand_Int 26 [inl 7; inl 30; inl 100]
                         [7; 4; 22] []).
  { eapply draws_cons; [reflexivity|].
    eapply draws_cons; [reflexivity|].
    eapply draws_cons; [reflexivity|]. apply draws_nil. }
  split; [reflexivity|]. split; [exact Hdraws|].
  apply (GenerateSecretKey_symbols [] Scripted.rand_Int []
           (Scripted.default []) [inl 7; inl 30; inl 100] "ABC" [7; 4; 22] []).
  - reflexivity.
  - reflexivity.
  - exact Hdraws.
  - repeat (constructor; [simpl; lia|]). constructor.
  - reflexivity.
Defined.

(** A source that fails at the second draw, as [iotest.ErrReader] does at
    the first in the package's test. *)
Lemma GenerateSecretKey_error_witness :
  let v := Scripted.default [inl 3; inr (errRandomSource "Mocked crypto/rand error!")] in
  0 < Length v /\
  draws Scripted.rand_Int (Length v) (RandomSource v) [3]
        [inr (errRandomSource "Mocked crypto/rand error!")] /\
  (length [3] < length (Go.runes "SHIBAMIYUKI"))%nat /\
  GenerateSecretKey Scripted.rand_Int v "SHIBAMIYUKI"
    = ([], Go.Ret (EmptyString, Some (errRandomSource "Mocked crypto/rand error!"))).
Proof.
  intros v.
  assert (Hdraws : draws Scripted.rand_Int (Length v) (RandomSource v) [3]
                     [inr (errRandomSource "Mocked crypto/rand error!")]).
  { eapply draws_cons; [reflexivity|]. apply draws_nil. }
  assert (Hlen : (length [3] < length (Go.runes "SHIBAMIYUKI"))%nat)
    by (vm_compute; lia).
  split; [reflexivity|]. split; [exact Hdraws|]. split; [exact Hlen|].
  apply (GenerateSecretKey_error Scripted.rand_Int v "SHIBAMIYUKI" [3]
           [inr (errRandomSource "Mocked crypto/rand error!")] []
           (errRandomSource "Mocked crypto/rand error!"));
    [reflexivity|exact Hdraws|exact Hlen|reflexivity].
Defined.

Lemma ValidateString_spec_witness :
  Forall (fun r => Go.string_of_rune r ∈ Alphabets (Scripted.default []))
         (Go.runes "ABC") /\
  ValidateString (Scripted.default []) "ABC" = (true, None).
Proof.
  assert (H : Forall (fun r => Go.string_of_rune r
                               ∈ Alphabets (Scripted.default []))
                     (Go.runes "ABC")) by compute_done.
  split; [exact H|].
  destruct (ValidateString_spec [] (Scripted.default []) "ABC") as [Hvalid _].
  apply Hvalid. exact H.
Defined.

Lemma NewVigenere_spec_witness :
  ~ NoDup ["A"; "A"; "B"] /\
  NewVigenere [] ["A"; "A"; "B"]
    = (@None (Vigenere Scripted.Source), Some errDuplicateAlphabets) /\
  NoDup ["A"; "B"; "C"] /\
  NewVigenere [] ["A"; "B"; "C"]
    = (Some (Scripted.context ["A"; "B"; "C"] []), None).
Proof.
  assert (H1 : ~ NoDup ["A"; "A"; "B"]) by compute_done.
  assert (H2 : NoDup ["A"; "B"; "C"]) by compute_done.
  destruct (NewVigenere_spec ([] : Scripted.Source))
    as (_ & Hdup & _ & Hok & _).
  split; [exact H1|]. split; [by apply Hdup|]. split; [exact H2|].
  by apply Hok.
Defined.

(** *** Where the properties stop *)

(** C1 as stated fails.  A symbol of several runes is never found in a
    text: over the alphabet [{"AB", "C"}] the text ["C"] is valid and
    [Encrypt("C", "C")] is ["AB"], which [Decrypt] refuses with the secret
    ["C"]. *)
Lemma Decrypt_Encrypt_fails :
  let v := Scripted.context ["AB"; "C"] [] in
  NewVigenere [] ["AB"; "C"] = (Some v, None) /\
  ValidateString v "C" = (true, None) /\
  Go.len "C" <= Go.len "C" /\
  Encrypt v "C" "C" = Go.Ret ("AB", None) /\
  Decrypt v "AB" "C" = Go.Ret (EmptyString, Some errDecryptLengthNotEqual) /\
  ~ exists ciphertext,
      Encrypt v "C" "C" = Go.Ret (ciphertext, None) /\
      Decrypt v ciphertext "C" = Go.Ret ("C", None).
Proof.
  intros v. split_and!; try reflexivity.
  intros (ciphertext & Henc & Hdec).
  assert (ciphertext = "AB") as -> by (vm_compute in Henc; congruence).
  vm_compute in Hdec. discriminate.
Qed.

(** Symbols of different lengths in bytes break the round trip as well:
    over [{"a", U+00E9}] the text ["aa"] and the secret U+00E9 are valid
    and have two bytes each, yet the secret has a single index. *)
Example Encrypt_panics_multibyte_symbol :
  let v := Scripted.context ["a"; Go.bytes [0xC3; 0xA9]] [] in
  NewVigenere [] ["a"; Go.bytes [0xC3; 0xA9]] = (Some v, None) /\
  ValidateString v "aa" = (true, None) /\
  ValidateString v (Go.bytes [0xC3; 0xA9]) = (true, None) /\
  Go.len "aa" = Go.len (Go.bytes [0xC3; 0xA9]) /\
  Encrypt v "aa" (Go.bytes [0xC3; 0xA9])
    = Go.Panic Go.IndexOutOfRange_numericSecret.
Proof. intros v. by split_and!. Qed.

(** C5 as stated fails.  The key has one symbol for each rune, not for
    each byte: the text of the two bytes C3 A9 is one rune, and its key
    over the default alphabet is one byte long; so is its key over
    [{"a", U+00E9}], for which the text is valid, when the draw gives the
    index of ["a"]. *)
Lemma GenerateSecretKey_length_fails :
  (let v := Scripted.default [inl 0] in
   let text := Go.bytes [0xC3; 0xA9] in
   draws Scripted.rand_Int (Length v) (RandomSource v) [0] [] /\
   GenerateSecretKey Scripted.rand_Int v text = ([], Go.Ret ("A", None)) /\
   Go.len "A" <> Go.len text) /\
  (let v := Scripted.context ["a"; Go.bytes [0xC3; 0xA9]] [inl 0] in
   let text := Go.bytes [0xC3; 0xA9] in
   NewVigenere [inl 0] ["a"; Go.bytes [0xC3; 0xA9]] = (Some v, None) /\
   ValidateString v text = (true, None) /\
   draws Scripted.rand_Int (Length v) (RandomSource v) [0] [] /\
   GenerateSecretKey Scripted.rand_Int v text = ([], Go.Ret ("a", None)) /\
   Go.len "a" <> Go.len text).
Proof.
  split; intros v text; split_and!; try reflexivity; try (by vm_compute);
    (eapply draws_cons; [reflexivity|]; apply draws_nil).
Qed.

(** C6 as stated fails.  A rune that is not a symbol gives no index:
    [Encrypt("A1", "AA")] is accepted and returns ["A"].  And a symbol of
    two bytes changes the number of bytes: over [{"a", "b", U+00E9}],
    [Encrypt("bb", "bb")] has four bytes. *)
Lemma Encrypt_length_fails :
  (let v := Scripted.default [] in
   Encrypt v "A1" "AA" = Go.Ret ("A", None) /\
   Go.len "A" <> Go.len "A1") /\
  (let v := Scripted.context ["a"; "b"; Go.bytes [0xC3; 0xA9]] [] in
   NewVigenere [] ["a"; "b"; Go.bytes [0xC3; 0xA9]] = (Some v, None) /\
   ValidateString v "bb" = (true, None) /\
   Encrypt v "bb" "bb" = Go.Ret (Go.bytes [0xC3; 0xA9; 0xC3; 0xA9], None) /\
   Go.len (Go.bytes [0xC3; 0xA9; 0xC3; 0xA9]) <> Go.len "bb").
Proof. split; intros v; by split_and!. Qed.

(** ** Further facts about the loops *)

Lemma index_out_of_range {A} p (s : list A) i :
  ~ (0 <= i < Z.of_nat (length s)) -> Go.index p s i = Go.Panic p.
Proof.
  intros Hi. unfold Go.index.
  destruct (Z.leb_spec 0 i); [|done].
  destruct (Z.ltb_spec i (Z.of_nat (length s))); [lia|done].
Qed.

(** The inner loop of [ConvertToNumeric] appends one index for each
    occurrence of the symbol in the alphabet. *)
Lemma ConvertToNumeric_scan_length alphabets i r :
  length (ConvertToNumeric_scan alphabets i r [])
  = length (filter (fun a => a = Go.string_of_rune r) alphabets).
Proof.
  revert i. induction alphabets as [|char rest IH]; intros i; [done|].
  simpl. rewrite ConvertToNumeric_scan_app, length_app, IH.
  destruct (String.eqb_spec char (Go.string_of_rune r)) as [Heq|Hne].
  - by rewrite filter_cons_True.
  - by rewrite filter_cons_False.
Qed.

(** In a duplicate-free alphabet the indices are those of the runes that
    are symbols, in order. *)
Lemma ConvertToNumeric_filter {Source} (v : Vigenere Source) str :
  NoDup (Alphabets v) ->
  Forall2 (fun num r => 0 <= num /\
             Alphabets v !! Z.to_nat num = Some (Go.string_of_rune r))
          (ConvertToNumeric v str)
          (filter (fun r => Go.string_of_rune r ∈ Alphabets v) (Go.runes str)).
Proof.
  intros Hnd. rewrite ConvertToNumeric_eq.
  induction (Go.runes str) as [|r rs IH]; [constructor|].
  simpl. destruct (decide (Go.string_of_rune r ∈ Alphabets v)) as [Hin|Hnin].
  - rewrite filter_cons_True by done.
    apply list_elem_of_lookup_1 in Hin as [k Hk].
    rewrite (ConvertToNumeric_scan_NoDup _ _ _ k) by done.
    simpl. constructor; [|done].
    split; [lia|]. by rewrite Z.add_0_l, Nat2Z.id.
  - rewrite filter_cons_False by done.
    by rewrite ConvertToNumeric_scan_absent.
Qed.

Lemma filter_length_eq_Forall {A} (P : A -> Prop) `{!forall x, Decision (P x)}
    (l : list A) :
  length (filter P l) = length l <-> Forall P l.
Proof.
  split.
  - intros Hlen. apply Forall_forall. intros x Hin.
    destruct (decide (P x)) as [|Hn]; [done|].
    pose proof (length_filter_lt P l x Hin Hn). lia.
  - induction 1 as [|x l Hx _ IH]; [done|].
    rewrite filter_cons_True by done. simpl. by rewrite IH.
Qed.

(** Out of range, [ConvertToString] panics. *)
Lemma ConvertToString_loop_Panic alphabets numbers str :
  ~ Forall (fun num => 0 <= num < Z.of_nat (length alphabets)) numbers ->
  ConvertToString_loop alphabets numbers str
  = Go.Panic Go.IndexOutOfRange_Alphabets.
Proof.
  revert str. induction numbers as [|num rest IH]; intros str Hn.
  - destruct Hn. constructor.
  - simpl.
    destruct (decide (0 <= num < Z.of_nat (length alphabets))) as [Hin|Hout].
    + destruct (index_in_range Go.IndexOutOfRange_Alphabets alphabets num Hin)
        as [a ->].
      simpl. apply IH. intros Hrest. apply Hn. by constructor.
    + by rewrite index_out_of_range.
Qed.

Lemma ConvertToString_Ret_in_range {Source} (v : Vigenere Source) numbers str :
  ConvertToString v numbers = Go.Ret str -> Forall (in_range v) numbers.
Proof.
  intros Hret.
  destruct (decide (Forall (in_range v) numbers)) as [|Hn]; [done|].
  unfold ConvertToString in Hret.
  rewrite ConvertToString_loop_Panic in Hret by done. discriminate.
Qed.

(** Re-encoding the runes of an encoded text gives the text. *)
Lemma encodes_join_runes alphabets numeric str :
  encodes alphabets numeric str ->
  Go.join (Go.string_of_rune <$> Go.runes str) = str.
Proof.
  induction 1 as [|k c numeric str Hk Hl Hc _ IH]; [done|].
  rewrite runes_cons_ascii, fmap_cons by done.
  pose proof (GoFacts.byte_of_range c).
  rewrite GoFacts.string_of_rune_below_0x80, GoFacts.chr_byte_of by lia.
  simpl. f_equal. exact IH.
Qed.

Lemma lookup_symbols_runes (alphabets : list string) numeric rs symbols :
  Forall2 (fun num r => 0 <= num /\
             alphabets !! Z.to_nat num = Some (Go.string_of_rune r))
          numeric rs ->
  Forall2 (fun num a => alphabets !! Z.to_nat num = Some a) numeric symbols ->
  symbols = Go.string_of_rune <$> rs.
Proof.
  intros Hf. revert symbols.
  induction Hf as [|num r numeric rs [_ Hnum] _ IH]; intros symbols Hsym.
  - by apply Forall2_nil_inv_l in Hsym as ->.
  - apply Forall2_cons_inv_l in Hsym as (a & symbols' & Ha & Hsym & ->).
    rewrite fmap_cons. f_equal; [congruence|by apply IH].
Qed.

(** ** Further properties: the codec *)

Section Codec.

Context {Source : Type}.
Implicit Types (v : Vigenere Source).

(** X1.  In a duplicate-free alphabet [ConvertToNumeric] gives, in
    order, the index of every rune of the text that is a symbol, and
    nothing for a rune that is not: such runes are dropped silently. *)
Theorem ConvertToNumeric_skips_unknown v str :
  NoDup (Alphabets v) ->
  Forall2 (fun num r => 0 <= num /\
             Alphabets v !! Z.to_nat num = Some (Go.string_of_rune r))
          (ConvertToNumeric v str)
          (filter (fun r => Go.string_of_rune r ∈ Alphabets v) (Go.runes str)).
Proof. apply ConvertToNumeric_filter. Qed.

(** X2.  Whatever the alphabet, [ConvertToNumeric] gives for each rune as
    many indices as the alphabet has occurrences of its symbol: none for
    an unknown rune, several for a repeated symbol. *)
Theorem ConvertToNumeric_length v str :
  length (ConvertToNumeric v str)
  = sum_list ((fun r => length (filter (fun a => a = Go.string_of_rune r)
                                       (Alphabets v)))
              <$> Go.runes str).
Proof.
  rewrite ConvertToNumeric_eq.
  induction (Go.runes str) as [|r rs IH]; [done|].
  simpl. by rewrite length_app, IH, ConvertToNumeric_scan_length.
Qed.

(** X3.  In a duplicate-free alphabet [ValidateString] accepts a text
    exactly when [ConvertToNumeric] loses none of its runes. *)
Theorem ValidateString_iff_no_rune_lost v str :
  NoDup (Alphabets v) ->
  ValidateString v str = (true, None)
  <-> length (ConvertToNumeric v str) = length (Go.runes str).
Proof.
  intros Hnd.
  rewrite ValidateString_true, <- filter_length_eq_Forall.
  by rewrite (Forall2_length _ _ _ (ConvertToNumeric_filter v str Hnd)).
Qed.

(** X4.  [ConvertToString] returns the symbols at the indices, joined,
    when every index is an index of the alphabet, and panics with index
    out of range as soon as one is not. *)
Theorem ConvertToString_outcome v numbers :
  (Forall (in_range v) numbers ->
   exists symbols,
     ConvertToString v numbers = Go.Ret (Go.join symbols) /\
     Forall2 (fun num a => Alphabets v !! Z.to_nat num = Some a)
             numbers symbols) /\
  (~ Forall (in_range v) numbers ->
   ConvertToString v numbers = Go.Panic Go.IndexOutOfRange_Alphabets).
Proof.
  split; [apply ConvertToString_in_range|].
  intros Hn. unfold ConvertToString.
  by rewrite ConvertToString_loop_Panic.
Qed.

(** X5.  In a duplicate-free alphabet, converting a valid text to
    indices and back gives each rune of the text re-encoded; over an
    alphabet of single ASCII characters that is the text itself. *)
Theorem ConvertToString_ConvertToNumeric v str :
  NoDup (Alphabets v) ->
  ValidateString v str = (true, None) ->
  ConvertToString v (ConvertToNumeric v str)
    = Go.Ret (Go.join (Go.string_of_rune <$> Go.runes str)) /\
  (forallb is_ascii_symbol (Alphabets v) = true ->
   ConvertToString v (ConvertToNumeric v str) = Go.Ret str).
Proof.
  intros Hnd Hvalid.
  assert (Hgen : ConvertToString v (ConvertToNumeric v str)
                 = Go.Ret (Go.join (Go.string_of_rune <$> Go.runes str))).
  { pose proof (ConvertToNumeric_filter v str Hnd) as Hf.
    pose proof (proj1 (ValidateString_true v str) Hvalid) as Hall.
    assert (Hfilter : filter (fun r => Go.string_of_rune r ∈ Alphabets v)
                             (Go.runes str) = Go.runes str).
    { clear Hf. induction Hall as [|r rs Hr _ IH]; [done|].
      rewrite filter_cons_True by done. by rewrite IH. }
    rewrite Hfilter in Hf.
    destruct (ConvertToString_in_range v (ConvertToNumeric v str)
                (ConvertToNumeric_in_range v str)) as (symbols & -> & Hsym).
    do 2 f_equal. by eapply lookup_symbols_runes. }
  split; [done|]. intros Hascii. rewrite Hgen.
  destruct (ValidateString_encodes v Hascii _ Hvalid) as [numeric Henc].
  by rewrite (encodes_join_runes _ _ _ Henc).
Qed.

(** X6.  Over a duplicate-free alphabet of single ASCII characters,
    converting indices of the alphabet to a text and back gives the
    indices; the text has one byte for each index and is valid. *)
Theorem ConvertToNumeric_ConvertToString v numbers :
  NoDup (Alphabets v) ->
  forallb is_ascii_symbol (Alphabets v) = true ->
  Forall (in_range v) numbers ->
  exists str,
    ConvertToString v numbers = Go.Ret str /\
    ConvertToNumeric v str = numbers /\
    Go.len str = Z.of_nat (length numbers) /\
    ValidateString v str = (true, None).
Proof.
  intros Hnd Hascii Hrange.
  destruct (in_range_encodes v Hascii numbers Hrange) as [str Henc].
  exists str. split_and!.
  - by apply encodes_ConvertToString.
  - by apply encodes_ConvertToNumeric.
  - unfold Go.len. by rewrite (encodes_length v _ _ Henc).
  - by eapply encodes_ValidateString.
Qed.

End Codec.

(** ** Further facts about the cipher *)

Lemma add_mod_sub_wrap L char s :
  0 <= char < L -> 0 <= s < L -> add_mod L (sub_wrap L char s) s = char.
Proof.
  intros Hc Hs. unfold sub_wrap, add_mod.
  destruct (Z.ltb_spec (char - s) 0).
  - replace (s + (char - s + L)) with (char + 1 * L) by lia.
    rewrite Z.mod_add by lia. apply Z.mod_small. lia.
  - replace (s + (char - s)) with char by lia. apply Z.mod_small. lia.
Qed.

Lemma add_mod_comm L a b : add_mod L a b = add_mod L b a.
Proof. unfold add_mod. by rewrite Z.add_comm. Qed.

Lemma add_mod_0_r L char : 0 <= char < L -> add_mod L char 0 = char.
Proof. intros Hc. unfold add_mod. simpl. apply Z.mod_small. lia. Qed.

Lemma zip_with_add_mod_comm L P S2 :
  zip_with (add_mod L) P S2 = zip_with (add_mod L) S2 P.
Proof.
  revert S2. induction P as [|char P IH]; intros [|s S2]; simpl; try done.
  by rewrite add_mod_comm, IH.
Qed.

Lemma zip_with_add_mod_sub_wrap L C S2 :
  (length C <= length S2)%nat ->
  Forall (fun num => 0 <= num < L) C ->
  Forall (fun num => 0 <= num < L) S2 ->
  zip_with (add_mod L) (zip_with (sub_wrap L) C S2) S2 = C.
Proof.
  intros Hlen HC. revert S2 Hlen.
  induction HC as [|char C Hc _ IH]; intros S2 Hlen HS; [by destruct S2|].
  destruct HS as [|s S2 Hs HS]; simpl in *; [lia|].
  rewrite add_mod_sub_wrap by done. f_equal. apply IH; [lia|done].
Qed.

Lemma zip_with_ignores_tail {A B C} (f : A -> B -> C) (l : list A)
    (k1 k2 : list B) :
  (length l <= length k1)%nat -> zip_with f l (k1 ++ k2) = zip_with f l k1.
Proof.
  revert k1. induction l as [|x l IH]; intros [|y k1] Hlen; simpl in *;
    try done; try lia.
  f_equal. apply IH. lia.
Qed.

Lemma zip_with_add_mod_zeros L P n :
  (length P <= n)%nat ->
  Forall (fun num => 0 <= num < L) P ->
  zip_with (add_mod L) P (replicate n 0) = P.
Proof.
  intros Hlen HP. revert n Hlen.
  induction HP as [|char P Hc _ IH]; intros n Hlen; [done|].
  destruct n as [|n]; simpl in *; [lia|].
  rewrite add_mod_0_r by done. f_equal. apply IH. lia.
Qed.

Lemma encodes_app alphabets S1 S2 str1 str2 :
  encodes alphabets S1 str1 -> encodes alphabets S2 str2 ->
  encodes alphabets (S1 ++ S2) (str1 +:+ str2).
Proof.
  intros H1 H2. induction H1; simpl; [done|]. by constructor.
Qed.

(** With a secret of too few indices the loops panic at
    [numericSecret[i]]. *)
Lemma Encrypt_loop_short L S1 S2 P ciphertext :
  L <> 0 -> (length S2 < length P)%nat ->
  Encrypt_loop L (S1 ++ S2) (Z.of_nat (length S1)) P ciphertext
  = Go.Panic Go.IndexOutOfRange_numericSecret.
Proof.
  intros HL. revert S1 S2 ciphertext.
  induction P as [|char P IH]; intros S1 S2 ciphertext Hlen;
    [simpl in Hlen; lia|].
  simpl. destruct S2 as [|s S2].
  - rewrite app_nil_r, index_out_of_range by lia. done.
  - rewrite index_middle. simpl.
    destruct (Z.eqb_spec L 0); [done|].
    replace (S1 ++ s :: S2) with ((S1 ++ [s]) ++ S2)
      by (by rewrite <- app_assoc).
    replace (Z.of_nat (length S1) + 1) with (Z.of_nat (length (S1 ++ [s])))
      by (rewrite length_app; simpl; lia).
    apply IH. simpl in Hlen. lia.
Qed.

Lemma Decrypt_loop_short L S1 S2 C plaintext :
  (length S2 < length C)%nat ->
  Decrypt_loop L (S1 ++ S2) (Z.of_nat (length S1)) C plaintext
  = Go.Panic Go.IndexOutOfRange_numericSecret.
Proof.
  revert S1 S2 plaintext.
  induction C as [|char C IH]; intros S1 S2 plaintext Hlen;
    [simpl in Hlen; lia|].
  simpl. destruct S2 as [|s S2].
  - rewrite app_nil_r, index_out_of_range by lia. done.
  - rewrite index_middle. simpl.
    replace (S1 ++ s :: S2) with ((S1 ++ [s]) ++ S2)
      by (by rewrite <- app_assoc).
    replace (Z.of_nat (length S1) + 1) with (Z.of_nat (length (S1 ++ [s])))
      by (rewrite length_app; simpl; lia).
    apply IH. simpl in Hlen. lia.
Qed.

Lemma Forall2_lookup_elem (alphabets : list string) numbers symbols :
  Forall2 (fun num a => alphabets !! Z.to_nat num = Some a) numbers symbols ->
  Forall (fun a => a ∈ alphabets) symbols.
Proof.
  induction 1 as [|num a numbers symbols Ha _ IH]; [constructor|].
  constructor; [by eapply list_elem_of_lookup_2|done].
Qed.

Section CipherFacts.

Context {Source : Type}.
Variable v : Vigenere Source.
Hypothesis alphabets_NoDup : NoDup (Alphabets v).
Hypothesis alphabets_ascii : forallb is_ascii_symbol (Alphabets v) = true.
Hypothesis Length_eq : Length v = Z.of_nat (length (Alphabets v)).
Hypothesis Length_pos : 0 < Length v.

Lemma encodes_Length numeric str :
  encodes (Alphabets v) numeric str ->
  Forall (fun num => 0 <= num < Length v) numeric.
Proof.
  intros Henc. rewrite Length_eq. by apply (encodes_in_range v _ str).
Qed.

Lemma encodes_len numeric str :
  encodes (Alphabets v) numeric str -> Go.len str = Z.of_nat (length numeric).
Proof. intros Henc. unfold Go.len. by rewrite (encodes_length v _ _ Henc). Qed.

(** With a key of as many symbols as the text, [Encrypt] and then
    [Decrypt] give the text back. *)
Lemma Encrypt_Decrypt_encodes T K text secret :
  encodes (Alphabets v) T text ->
  encodes (Alphabets v) K secret ->
  (length T <= length K)%nat ->
  exists ciphertext,
    encodes (Alphabets v) (zip_with (add_mod (Length v)) T K) ciphertext /\
    Encrypt v text secret = Go.Ret (ciphertext, None) /\
    Decrypt v ciphertext secret = Go.Ret (text, None).
Proof.
  intros HT HK Hlen.
  assert (Hlen' : Go.len text <= Go.len secret).
  { rewrite (encodes_len _ _ HT), (encodes_len _ _ HK). lia. }
  destruct (Encrypt_encodes v alphabets_NoDup alphabets_ascii Length_eq
              Length_pos T K text secret HT HK Hlen')
    as (ciphertext & HC & Henc).
  exists ciphertext. split_and!; try done.
  destruct (Decrypt_encodes v alphabets_NoDup alphabets_ascii Length_eq
              Length_pos _ K ciphertext secret HC HK)
    as (text' & HT' & Hdec).
  { rewrite (encodes_len _ _ HC), (encodes_len _ _ HK), length_zip_with. lia. }
  rewrite Hdec. do 3 f_equal.
  rewrite zip_with_sub_wrap_add_mod in HT';
    [|done|by eapply encodes_Length|by eapply encodes_Length].
  by apply (encodes_inj v T).
Qed.

End CipherFacts.

(** ** Further properties: the cipher *)

Section CipherProperties.

Context {Source : Type}.
Variable rand_Reader : Source.
Implicit Types (v : Vigenere Source) (alphabets : list string).

(** X7.  Over an alphabet of single ASCII characters, [Decrypt] and then
    [Encrypt] with the same secret give the ciphertext back: for a valid
    ciphertext and a valid secret at least as long, [Decrypt] returns a
    plaintext and no error, and [Encrypt] of it returns the ciphertext and
    no error. *)
Theorem Encrypt_after_Decrypt_ascii alphabets v ciphertext secret :
  NewVigenere rand_Reader alphabets = (Some v, None) ->
  forallb is_ascii_symbol (Alphabets v) = true ->
  ValidateString v ciphertext = (true, None) ->
  ValidateString v secret = (true, None) ->
  Go.len ciphertext <= Go.len secret ->
  exists plaintext,
    Decrypt v ciphertext secret = Go.Ret (plaintext, None) /\
    Encrypt v plaintext secret = Go.Ret (ciphertext, None).
Proof.
  intros Hnew Hascii Hc Hs Hlen.
  apply NewVigenere_Some in Hnew as (_ & Hnd & HL & Hpos & _ & _).
  destruct (ValidateString_encodes v Hascii _ Hc) as [C HC].
  destruct (ValidateString_encodes v Hascii _ Hs) as [S HS].
  assert (HlenC : (length C <= length S)%nat).
  { rewrite (encodes_len v _ _ HC), (encodes_len v _ _ HS) in Hlen. lia. }
  destruct (Decrypt_encodes v Hnd Hascii HL Hpos C S ciphertext secret)
    as (plaintext & HP & Hdec); try done.
  exists plaintext. split; [done|].
  destruct (Encrypt_encodes v Hnd Hascii HL Hpos _ S plaintext secret HP HS)
    as (ciphertext' & HC' & Henc).
  { rewrite (encodes_len v _ _ HP), (encodes_len v _ _ HS), length_zip_with.
    lia. }
  rewrite Henc. do 3 f_equal.
  rewrite zip_with_add_mod_sub_wrap in HC';
    [|done|by eapply encodes_Length|by eapply encodes_Length].
  by apply (encodes_inj v C).
Qed.

(** X8.  Over an alphabet of single ASCII characters the plaintext and
    the secret play the same part in [Encrypt]: for valid texts of equal
    length, [Encrypt(a, b)] and [Encrypt(b, a)] are the same. *)
Theorem Encrypt_comm alphabets v a b :
  NewVigenere rand_Reader alphabets = (Some v, None) ->
  forallb is_ascii_symbol (Alphabets v) = true ->
  ValidateString v a = (true, None) ->
  ValidateString v b = (true, None) ->
  Go.len a = Go.len b ->
  Encrypt v a b = Encrypt v b a.
Proof.
  intros Hnew Hascii Ha Hb Hlen.
  apply NewVigenere_Some in Hnew as (_ & Hnd & HL & Hpos & _ & _).
  destruct (ValidateString_encodes v Hascii _ Ha) as [A HA].
  destruct (ValidateString_encodes v Hascii _ Hb) as [B HB].
  destruct (Encrypt_encodes v Hnd Hascii HL Hpos A B a b HA HB)
    as (c1 & HC1 & ->); [lia|].
  destruct (Encrypt_encodes v Hnd Hascii HL Hpos B A b a HB HA)
    as (c2 & HC2 & ->); [lia|].
  rewrite zip_with_add_mod_comm in HC2.
  by rewrite (encodes_inj v _ _ _ HC1 HC2).
Qed.

(** X9.  Over an alphabet of single ASCII characters, what the secret
    has beyond the length of the text is ignored: [Encrypt] and [Decrypt]
    give the same result with [secret] and with [secret] followed by any
    valid [extra]. *)
Theorem trailing_secret_ignored alphabets v text secret extra :
  NewVigenere rand_Reader alphabets = (Some v, None) ->
  forallb is_ascii_symbol (Alphabets v) = true ->
  ValidateString v text = (true, None) ->
  ValidateString v secret = (true, None) ->
  ValidateString v extra = (true, None) ->
  Go.len text <= Go.len secret ->
  Encrypt v text (secret +:+ extra) = Encrypt v text secret /\
  Decrypt v text (secret +:+ extra) = Decrypt v text secret.
Proof.
  intros Hnew Hascii Ht Hs He Hlen.
  apply NewVigenere_Some in Hnew as (_ & Hnd & HL & Hpos & _ & _).
  destruct (ValidateString_encodes v Hascii _ Ht) as [T HT].
  destruct (ValidateString_encodes v Hascii _ Hs) as [S HS].
  destruct (ValidateString_encodes v Hascii _ He) as [E HE].
  pose proof (encodes_app _ _ _ _ _ HS HE) as HSE.
  assert (HlenT : (length T <= length S)%nat).
  { rewrite (encodes_len v _ _ HT), (encodes_len v _ _ HS) in Hlen. lia. }
  assert (Hlen' : Go.len text <= Go.len (secret +:+ extra)).
  { rewrite (encodes_len v _ _ HT), (encodes_len v _ _ HSE), length_app. lia. }
  split.
  - destruct (Encrypt_encodes v Hnd Hascii HL Hpos T S text secret HT HS Hlen)
      as (c1 & HC1 & ->).
    destruct (Encrypt_encodes v Hnd Hascii HL Hpos T (S ++ E) text _ HT HSE
                Hlen') as (c2 & HC2 & ->).
    rewrite zip_with_ignores_tail in HC2 by done.
    by rewrite (encodes_inj v _ _ _ HC1 HC2).
  - destruct (Decrypt_encodes v Hnd Hascii HL Hpos T S text secret HT HS Hlen)
      as (p1 & HP1 & ->).
    destruct (Decrypt_encodes v Hnd Hascii HL Hpos T (S ++ E) text _ HT HSE
                Hlen') as (p2 & HP2 & ->).
    rewrite zip_with_ignores_tail in HP2 by done.
    by rewrite (encodes_inj v _ _ _ HP1 HP2).
Qed.

(** X10.  Over an alphabet of single ASCII characters, what [Encrypt]
    and [Decrypt] return for a valid text and a valid secret at least as
    long is itself a valid text. *)
Theorem Encrypt_Decrypt_output_valid alphabets v text secret :
  NewVigenere rand_Reader alphabets = (Some v, None) ->
  forallb is_ascii_symbol (Alphabets v) = true ->
  ValidateString v text = (true, None) ->
  ValidateString v secret = (true, None) ->
  Go.len text <= Go.len secret ->
  (exists out, Encrypt v text secret = Go.Ret (out, None) /\
               ValidateString v out = (true, None)) /\
  (exists out, Decrypt v text secret = Go.Ret (out, None) /\
               ValidateString v out = (true, None)).
Proof.
  intros Hnew Hascii Ht Hs Hlen.
  apply NewVigenere_Some in Hnew as (_ & Hnd & HL & Hpos & _ & _).
  destruct (ValidateString_encodes v Hascii _ Ht) as [T HT].
  destruct (ValidateString_encodes v Hascii _ Hs) as [S HS].
  split.
  - destruct (Encrypt_encodes v Hnd Hascii HL Hpos T S text secret HT HS Hlen)
      as (out & Hout & ->).
    exists out. split; [done|]. by eapply encodes_ValidateString.
  - destruct (Decrypt_encodes v Hnd Hascii HL Hpos T S text secret HT HS Hlen)
      as (out & Hout & ->).
    exists out. split; [done|]. by eapply encodes_ValidateString.
Qed.

(** X11.  In a context that [NewVigenere] has built, past the length
    guard, [Encrypt] and [Decrypt] panic with index out of range at
    [numericSecret[i]] exactly when the secret has fewer symbols of the
    alphabet than the text; otherwise they return no error and the join
    of one symbol of the alphabet for each symbol of the text.  (The
    alphabet has fewer than 2^62 symbols.) *)
Theorem Encrypt_Decrypt_outcome alphabets v text secret :
  NewVigenere rand_Reader alphabets = (Some v, None) ->
  Z.of_nat (length (Alphabets v)) < 2 ^ 62 ->
  Go.len text <= Go.len secret ->
  ((length (ConvertToNumeric v secret) < length (ConvertToNumeric v text))%nat ->
   Encrypt v text secret = Go.Panic Go.IndexOutOfRange_numericSecret /\
   Decrypt v text secret = Go.Panic Go.IndexOutOfRange_numericSecret) /\
  ((length (ConvertToNumeric v text) <= length (ConvertToNumeric v secret))%nat ->
   (exists symbols,
      Encrypt v text secret = Go.Ret (Go.join symbols, None) /\
      length symbols = length (ConvertToNumeric v text) /\
      Forall (fun a => a ∈ Alphabets v) symbols) /\
   (exists symbols,
      Decrypt v text secret = Go.Ret (Go.join symbols, None) /\
      length symbols = length (ConvertToNumeric v text) /\
      Forall (fun a => a ∈ Alphabets v) symbols)).
Proof.
  intros Hnew Hsmall Hlen.
  apply NewVigenere_Some in Hnew as (_ & _ & HL & Hpos & _ & _).
  assert (Hnum : forall str,
    Forall (fun num => 0 <= num < Length v) (ConvertToNumeric v str)).
  { intros str. rewrite HL. apply ConvertToNumeric_in_range. }
  set (T := ConvertToNumeric v text) in *.
  set (S := ConvertToNumeric v secret) in *.
  assert (Hguard : (Go.len secret <? Go.len text) = false)
    by (apply Z.ltb_ge; lia).
  split.
  - intros Hshort. unfold Encrypt, Decrypt. rewrite Hguard. fold T S.
    pose proof (Encrypt_loop_short (Length v) [] S T []) as He.
    pose proof (Decrypt_loop_short (Length v) [] S T []) as Hd.
    change (Z.of_nat (length [])) with 0 in He, Hd. simpl in He, Hd.
    rewrite He, Hd by (done || lia). done.
  - intros Hlong. unfold Encrypt, Decrypt. rewrite Hguard. fold T S.
    pose proof (Encrypt_loop_zip (Length v) [] S T []) as He.
    pose proof (Decrypt_loop_zip (Length v) [] S T []) as Hd.
    change (Z.of_nat (length [])) with 0 in He, Hd. simpl in He, Hd.
    rewrite He, Hd by (done || lia || apply Hnum). simpl.
    split.
    + destruct (ConvertToString_in_range v (zip_with (add_mod (Length v)) T S))
        as (symbols & -> & Hsym).
      { unfold in_range. rewrite <- HL.
        apply zip_with_add_mod_in_range. lia. }
      exists symbols. split_and!; [done| |by eapply Forall2_lookup_elem].
      rewrite <- (Forall2_length _ _ _ Hsym), length_zip_with. lia.
    + destruct (ConvertToString_in_range v (zip_with (sub_wrap (Length v)) T S))
        as (symbols & -> & Hsym).
      { unfold in_range. rewrite <- HL.
        apply zip_with_sub_wrap_in_range; apply Hnum. }
      exists symbols. split_and!; [done| |by eapply Forall2_lookup_elem].
      rewrite <- (Forall2_length _ _ _ Hsym), length_zip_with. lia.
Qed.

(** X12.  Over an alphabet of single ASCII characters every valid
    ciphertext of the length of a valid plaintext is reached by some key:
    [Decrypt(ciphertext, plaintext)] returns a valid key of that length,
    and [Encrypt(plaintext, key)] returns the ciphertext. *)
Theorem every_ciphertext_has_a_key alphabets v plaintext ciphertext :
  NewVigenere rand_Reader alphabets = (Some v, None) ->
  forallb is_ascii_symbol (Alphabets v) = true ->
  ValidateString v plaintext = (true, None) ->
  ValidateString v ciphertext = (true, None) ->
  Go.len plaintext = Go.len ciphertext ->
  exists key,
    Decrypt v ciphertext plaintext = Go.Ret (key, None) /\
    ValidateString v key = (true, None) /\
    Go.len key = Go.len plaintext /\
    Encrypt v plaintext key = Go.Ret (ciphertext, None).
Proof.
  intros Hnew Hascii Hp Hc Hlen.
  apply NewVigenere_Some in Hnew as (_ & Hnd & HL & Hpos & _ & _).
  destruct (ValidateString_encodes v Hascii _ Hp) as [P HP].
  destruct (ValidateString_encodes v Hascii _ Hc) as [C HC].
  assert (HlenP : length P = length C).
  { rewrite (encodes_len v _ _ HP), (encodes_len v _ _ HC) in Hlen. lia. }
  destruct (Decrypt_encodes v Hnd Hascii HL Hpos C P ciphertext plaintext HC HP)
    as (key & HK & Hdec); [lia|].
  assert (HlenK : Go.len key = Go.len plaintext).
  { rewrite (encodes_len v _ _ HK), (encodes_len v _ _ HP), length_zip_with.
    lia. }
  exists key. split_and!; [done|by eapply encodes_ValidateString|done|].
  destruct (Encrypt_encodes v Hnd Hascii HL Hpos P _ plaintext key HP HK)
    as (ciphertext' & HC' & ->); [lia|].
  do 3 f_equal.
  rewrite zip_with_add_mod_comm, zip_with_add_mod_sub_wrap in HC';
    [|lia|by eapply encodes_Length|by eapply encodes_Length].
  by apply (encodes_inj v C).
Qed.

(** X13.  Over an alphabet of single ASCII characters a key made of the
    first symbol of the alphabet leaves the text as it is: [Encrypt] and
    [Decrypt] of a valid text with such a key, at least as long, return
    the text. *)
Theorem first_symbol_key_is_identity alphabets v text a n :
  NewVigenere rand_Reader alphabets = (Some v, None) ->
  forallb is_ascii_symbol (Alphabets v) = true ->
  ValidateString v text = (true, None) ->
  Alphabets v !! 0%nat = Some a ->
  Go.len text <= Z.of_nat n ->
  Encrypt v text (Go.join (replicate n a)) = Go.Ret (text, None) /\
  Decrypt v text (Go.join (replicate n a)) = Go.Ret (text, None).
Proof.
  intros Hnew Hascii Ht Ha Hlen.
  apply NewVigenere_Some in Hnew as (_ & Hnd & HL & Hpos & _ & _).
  destruct (ValidateString_encodes v Hascii _ Ht) as [T HT].
  destruct (alphabets_ascii_elem v Hascii a) as (c & -> & Hc);
    [by eapply list_elem_of_lookup_2|].
  assert (HK : encodes (Alphabets v) (replicate n 0)
                       (Go.join (replicate n (String c EmptyString)))).
  { clear Hlen. induction n as [|n IH]; [constructor|].
    simpl. constructor; try done. }
  assert (HlenT : (length T <= n)%nat).
  { rewrite (encodes_len v _ _ HT) in Hlen. lia. }
  assert (Hlen' : Go.len text
                  <= Go.len (Go.join (replicate n (String c EmptyString)))).
  { rewrite (encodes_len v _ _ HK), length_replicate. lia. }
  split.
  - destruct (Encrypt_encodes v Hnd Hascii HL Hpos T _ text _ HT HK Hlen')
      as (out & Hout & ->).
    rewrite zip_with_add_mod_zeros in Hout
      by (done || by eapply encodes_Length).
    by rewrite (encodes_inj v _ _ _ Hout HT).
  - destruct (Decrypt_encodes v Hnd Hascii HL Hpos T _ text _ HT HK Hlen')
      as (out & Hout & ->).
    assert (Hz : zip_with (sub_wrap (Length v)) T (replicate n 0) = T).
    { pose proof (encodes_Length v HL _ _ HT) as HTr.
      clear -HTr HlenT. revert n HlenT.
      induction HTr as [|char T Hchar _ IH]; intros n HlenT; [done|].
      destruct n as [|n]; simpl in *; [lia|].
      rewrite IH by lia. f_equal. unfold sub_wrap.
      destruct (Z.ltb_spec (char - 0) 0); lia. }
    rewrite Hz in Hout.
    by rewrite (encodes_inj v _ _ _ Hout HT).
Qed.

End CipherProperties.

(** ** Further facts about key generation *)

Section KeyFacts.

Context {Source : Type}.
Variable rand_Int : Source -> Z -> Source * (Z + error).

(** A loop that ends without error has drawn one number for each rune. *)
Lemma GenerateSecretKey_loop_Ret (v : Vigenere Source) rs secret src out :
  GenerateSecretKey_loop rand_Int v rs secret = (src, Go.Ret (inl out)) ->
  exists numbers, out = secret ++ numbers /\ length numbers = length rs.
Proof.
  revert v secret. induction rs as [|r rs IH]; intros v secret; simpl.
  - intros [= _ <-]. exists []. by rewrite app_nil_r.
  - destruct (GenerateRandomNumber rand_Int v) as [src1 [[number [err|]]|p]];
      try discriminate.
    intros Hloop. apply IH in Hloop as (numbers & -> & Hlen).
    exists (number :: numbers). rewrite <- app_assoc. split; [done|].
    simpl. by rewrite Hlen.
Qed.

(** With a positive [Length] the loop does not panic. *)
Lemma GenerateSecretKey_loop_no_Panic (v : Vigenere Source) rs secret src p :
  0 < Length v ->
  GenerateSecretKey_loop rand_Int v rs secret <> (src, Go.Panic p).
Proof.
  intros Hpos. revert v secret Hpos.
  induction rs as [|r rs IH]; intros v secret Hpos; simpl; [done|].
  unfold GenerateRandomNumber.
  destruct (Z.leb_spec (Length v) 0); [lia|].
  destruct (rand_Int (RandomSource v) (Length v)) as [src1 [number|err]];
    [|done].
  by apply IH.
Qed.

(** What [GenerateSecretKey] returns without error is the text of as
    many indices of the alphabet as the text has runes. *)
Lemma GenerateSecretKey_Ret (v : Vigenere Source) text src secret :
  GenerateSecretKey rand_Int v text = (src, Go.Ret (secret, None)) ->
  exists numbers,
    length numbers = length (Go.runes text) /\
    Forall (in_range v) numbers /\
    ConvertToString v numbers = Go.Ret secret.
Proof.
  unfold GenerateSecretKey.
  destruct (GenerateSecretKey_loop rand_Int v (Go.runes text) [])
    as [src1 [[numbers|err]|p]] eqn:Hloop; try discriminate.
  destruct (ConvertToString v numbers) as [str|p] eqn:Hstr; [|discriminate].
  simpl. intros [= _ <-].
  apply GenerateSecretKey_loop_Ret in Hloop as (numbers' & -> & Hlen).
  exists numbers'. split_and!; [done| |done].
  by eapply ConvertToString_Ret_in_range.
Qed.

Lemma ConvertToString_Panic (v : Vigenere Source) numbers p :
  ConvertToString v numbers = Go.Panic p -> p = Go.IndexOutOfRange_Alphabets.
Proof.
  destruct (decide (Forall (in_range v) numbers)) as [Hin|Hout].
  - destruct (ConvertToString_in_range v numbers Hin) as (symbols & -> & _).
    discriminate.
  - unfold ConvertToString. rewrite ConvertToString_loop_Panic by done.
    by intros [= <-].
Qed.

(** With a positive [Length], [GenerateSecretKey] panics only in
    [ConvertToString]. *)
Lemma GenerateSecretKey_Panic (v : Vigenere Source) text src p :
  0 < Length v ->
  GenerateSecretKey rand_Int v text = (src, Go.Panic p) ->
  p = Go.IndexOutOfRange_Alphabets.
Proof.
  intros Hpos. unfold GenerateSecretKey.
  destruct (GenerateSecretKey_loop rand_Int v (Go.runes text) [])
    as [src1 [[numbers|err]|q]] eqn:Hloop; try discriminate.
  - destruct (ConvertToString v numbers) as [str|q] eqn:Hstr; [discriminate|].
    simpl. intros [= _ <-]. by eapply ConvertToString_Panic.
  - by apply GenerateSecretKey_loop_no_Panic in Hloop.
Qed.

(** Over an alphabet of single ASCII characters a key returned for a
    valid text is valid, as long as the text, and works. *)
Lemma generated_key_works (v : Vigenere Source) src text src' secret :
  NoDup (Alphabets v) ->
  forallb is_ascii_symbol (Alphabets v) = true ->
  Length v = Z.of_nat (length (Alphabets v)) ->
  0 < Length v ->
  ValidateString v text = (true, None) ->
  GenerateSecretKey rand_Int (with_source v src) text
    = (src', Go.Ret (secret, None)) ->
  ValidateString v secret = (true, None) /\
  Go.len secret = Go.len text /\
  exists ciphertext,
    Encrypt v text secret = Go.Ret (ciphertext, None) /\
    Decrypt v ciphertext secret = Go.Ret (text, None).
Proof.
  intros Hnd Hascii HL Hpos Ht Hgen.
  destruct (ValidateString_encodes v Hascii _ Ht) as [T HT].
  apply GenerateSecretKey_Ret in Hgen as (K & HlenK & HKr & Hstr).
  change (ConvertToString (with_source v src) K) with (ConvertToString v K)
    in Hstr.
  destruct (in_range_encodes v Hascii K HKr) as [secret' HK].
  rewrite (encodes_ConvertToString v _ _ HK) in Hstr.
  injection Hstr as ->.
  assert (Hlen : length K = length T).
  { rewrite HlenK, (encodes_runes_length v _ _ HT).
    by rewrite (encodes_length v _ _ HT). }
  split_and!.
  - by eapply encodes_ValidateString.
  - rewrite (encodes_len v _ _ HK), (encodes_len v _ _ HT). lia.
  - destruct (Encrypt_Decrypt_encodes v Hnd Hascii HL Hpos T K text secret)
      as (ciphertext & _ & Henc & Hdec); [done|done|lia|].
    by exists ciphertext.
Qed.

(** The context that [main] works in, and what it computes before the
    key. *)
Lemma main_unfold (rand_Reader : Source) :
  let v := {| Alphabets := GenerateDefaultAlphabets; Length := 26;
              RandomSource := rand_Reader |} in
  ExampleMain.main rand_Reader rand_Int =
  match GenerateSecretKey rand_Int v "VIGENERECIPHER" with
  | (src, Go.Panic p) => (src, ExampleMain.PanicRuntime p)
  | (src, Go.Ret (_, Some err)) =>
    (src, ExampleMain.PanicValue ("crypto/rand failed, reason: " +:+ Error err))
  | (src, Go.Ret (secret, None)) =>
    match Encrypt v "VIGENERECIPHER" secret with
    | Go.Panic p => (src, ExampleMain.PanicRuntime p)
    | Go.Ret (_, Some err) => (src, ExampleMain.LogFatal (Error err))
    | Go.Ret (ciphertext, None) =>
      match Decrypt v ciphertext secret with
      | Go.Panic p => (src, ExampleMain.PanicRuntime p)
      | Go.Ret (_, Some err) => (src, ExampleMain.LogFatal (Error err))
      | Go.Ret (decrypted, None) =>
        (src,
         ExampleMain.Returned
           ["Vigenere Encryption done with the following results:";
            "Valid Plaintext: true";
            "Plaintext: VIGENERECIPHER";
            "Secret Key: " +:+ secret;
            "Ciphertext: " +:+ ciphertext;
            "Decrypted: " +:+ decrypted])
      end
    end
  end.
Proof. reflexivity. Qed.

End KeyFacts.

(** ** Further properties: key generation and the example program *)

Section KeyProperties.

Context {Source : Type}.
Variable rand_Reader : Source.
Variable rand_Int : Source -> Z -> Source * (Z + error).
Implicit Types (v : Vigenere Source) (alphabets : list string).

(** X14.  Over an alphabet of single ASCII characters, a key that
    [GenerateSecretKey] returns for a valid text without error, whatever
    the random source has given, is valid and as long as the text, and it
    works: [Encrypt] with it returns a ciphertext and no error, and
    [Decrypt] of the ciphertext with it returns the text. *)
Theorem generated_key_round_trip alphabets v src text src' secret :
  NewVigenere rand_Reader alphabets = (Some v, None) ->
  forallb is_ascii_symbol (Alphabets v) = true ->
  ValidateString v text = (true, None) ->
  GenerateSecretKey rand_Int (with_source v src) text
    = (src', Go.Ret (secret, None)) ->
  ValidateString v secret = (true, None) /\
  Go.len secret = Go.len text /\
  exists ciphertext,
    Encrypt v text secret = Go.Ret (ciphertext, None) /\
    Decrypt v ciphertext secret = Go.Ret (text, None).
Proof.
  intros Hnew Hascii Ht Hgen.
  apply NewVigenere_Some in Hnew as (_ & Hnd & HL & Hpos & _ & _).
  by eapply generated_key_works.
Qed.

(** X15.  When the fourteen draws succeed and give numbers below 26,
    [main] returns after printing six lines: the validity [true], the
    plaintext, a secret key of fourteen bytes, the ciphertext that
    [Encrypt] gives for them, and as the decrypted text the plaintext
    again. *)
Theorem main_prints_plaintext numbers src' :
  draws rand_Int 26 rand_Reader numbers src' ->
  length numbers = 14%nat ->
  Forall (fun number => 0 <= number < 26) numbers ->
  exists secret ciphertext,
    ExampleMain.main rand_Reader rand_Int
    = (src',
       ExampleMain.Returned
         ["Vigenere Encryption done with the following results:";
          "Valid Plaintext: true";
          "Plaintext: VIGENERECIPHER";
          "Secret Key: " +:+ secret;
          "Ciphertext: " +:+ ciphertext;
          "Decrypted: VIGENERECIPHER"]) /\
    Go.len secret = 14 /\
    Encrypt {| Alphabets := GenerateDefaultAlphabets; Length := 26;
               RandomSource := rand_Reader |} "VIGENERECIPHER" secret
    = Go.Ret (ciphertext, None).
Proof.
  intros Hdraws Hlen Hrange.
  set (v := {| Alphabets := GenerateDefaultAlphabets; Length := 26;
               RandomSource := rand_Reader |}).
  assert (Hvalid : ValidateString v "VIGENERECIPHER" = (true, None))
    by reflexivity.
  assert (Hascii : forallb is_ascii_symbol (Alphabets v) = true)
    by reflexivity.
  assert (Hnd : NoDup (Alphabets v)).
  { by destruct (NewVigenere_Some rand_Reader [] v None eq_refl)
      as (_ & ? & _). }
  assert (Hloop : GenerateSecretKey_loop rand_Int (with_source v rand_Reader)
                    (Go.runes "VIGENERECIPHER") []
                  = (src', Go.Ret (inl ([] ++ (Go.int64 <$> numbers))))).
  { apply GenerateSecretKey_loop_draws; [done|done|by rewrite Hlen]. }
  assert (Hid : Go.int64 <$> numbers = numbers).
  { clear -Hrange. induction Hrange as [|n ns Hn _ IH]; [done|].
    rewrite fmap_cons, IH, GoFacts.int64_small; [done|lia]. }
  rewrite Hid, app_nil_l in Hloop.
  destruct (in_range_encodes v Hascii numbers) as [secret HK]; [exact Hrange|].
  assert (Hgen : GenerateSecretKey rand_Int (with_source v rand_Reader)
                   "VIGENERECIPHER" = (src', Go.Ret (secret, None))).
  { unfold GenerateSecretKey. rewrite Hloop.
    change (ConvertToString (with_source v rand_Reader) numbers)
      with (ConvertToString v numbers).
    by rewrite (encodes_ConvertToString v _ _ HK). }
  destruct (generated_key_works rand_Int v rand_Reader "VIGENERECIPHER" src'
              secret Hnd Hascii eq_refl eq_refl Hvalid Hgen)
    as (_ & Hlens & ciphertext & Henc & Hdec).
  exists secret, ciphertext. split_and!; [|done|done].
  rewrite main_unfold. cbv zeta. fold v.
  change (with_source v rand_Reader) with v in Hgen.
  by rewrite Hgen, Henc, Hdec.
Qed.

(** X16.  When one of the fourteen draws fails, [main] panics with the
    message of that failure after ["crypto/rand failed, reason: "], and
    reads the source no further. *)
Theorem main_panics_on_failed_draw numbers src1 src2 err :
  draws rand_Int 26 rand_Reader numbers src1 ->
  (length numbers < 14)%nat ->
  rand_Int src1 26 = (src2, inr err) ->
  ExampleMain.main rand_Reader rand_Int
  = (src2,
     ExampleMain.PanicValue ("crypto/rand failed, reason: " +:+ Error err)).
Proof.
  intros Hdraws Hlen Herr.
  set (v := {| Alphabets := GenerateDefaultAlphabets; Length := 26;
               RandomSource := rand_Reader |}).
  assert (Hloop : GenerateSecretKey_loop rand_Int (with_source v rand_Reader)
                    (Go.runes "VIGENERECIPHER") []
                  = (src2, Go.Ret (inr err))).
  { eapply GenerateSecretKey_loop_error; [done|exact Hdraws|exact Herr|].
    exact Hlen. }
  rewrite main_unfold. cbv zeta. fold v.
  change (with_source v rand_Reader) with v in Hloop.
  unfold GenerateSecretKey. by rewrite Hloop.
Qed.

(** X17.  Whatever the random source does, [main] ends in one of three
    ways: it returns after printing six lines, the last of which gives the
    plaintext as the decrypted text; or it panics over a failed draw; or,
    if [rand.Int] gave a number that is no index of the alphabet, it
    panics with index out of range in [ConvertToString].  It never ends in
    [log.Fatal]. *)
Theorem main_never_Fatal :
  (exists src secret ciphertext,
     ExampleMain.main rand_Reader rand_Int
     = (src,
        ExampleMain.Returned
          ["Vigenere Encryption done with the following results:";
           "Valid Plaintext: true";
           "Plaintext: VIGENERECIPHER";
           "Secret Key: " +:+ secret;
           "Ciphertext: " +:+ ciphertext;
           "Decrypted: VIGENERECIPHER"])) \/
  (exists src err,
     ExampleMain.main rand_Reader rand_Int
     = (src,
        ExampleMain.PanicValue ("crypto/rand failed, reason: " +:+ Error err)))
  \/
  (exists src,
     ExampleMain.main rand_Reader rand_Int
     = (src, ExampleMain.PanicRuntime Go.IndexOutOfRange_Alphabets)).
Proof.
  set (v := {| Alphabets := GenerateDefaultAlphabets; Length := 26;
               RandomSource := rand_Reader |}).
  assert (Hvalid : ValidateString v "VIGENERECIPHER" = (true, None))
    by reflexivity.
  assert (Hascii : forallb is_ascii_symbol (Alphabets v) = true)
    by reflexivity.
  assert (Hnd : NoDup (Alphabets v)).
  { by destruct (NewVigenere_Some rand_Reader [] v None eq_refl)
      as (_ & ? & _). }
  rewrite main_unfold. cbv zeta. fold v.
  destruct (GenerateSecretKey rand_Int v "VIGENERECIPHER")
    as [src [[secret [err|]]|p]] eqn:Hgen.
  - right. left. by exists src, err.
  - left.
    destruct (generated_key_works rand_Int v rand_Reader "VIGENERECIPHER" src
                secret Hnd Hascii eq_refl eq_refl Hvalid Hgen)
      as (_ & _ & ciphertext & Henc & Hdec).
    exists src, secret, ciphertext. by rewrite Henc, Hdec.
  - right. right. exists src.
    apply GenerateSecretKey_Panic in Hgen as ->; done.
Qed.

End KeyProperties.

(** ** Further properties: what a built context rules out *)

Lemma Encrypt_loop_Panic_nonzero L numericSecret i numericPlaintext ciphertext q :
  L <> 0 ->
  Encrypt_loop L numericSecret i numericPlaintext ciphertext = Go.Panic q ->
  q = Go.IndexOutOfRange_numericSecret.
Proof.
  intros HL. revert i ciphertext.
  induction numericPlaintext as [|char rest IH]; intros i ciphertext; simpl;
    [discriminate|].
  destruct (Go.index _ numericSecret i) as [s|p] eqn:Hidx; simpl.
  - destruct (Z.eqb_spec L 0); [done|apply IH].
  - apply index_Panic in Hidx as ->. by intros [= <-].
Qed.

Section BuiltContext.

Context {Source : Type}.
Variable rand_Reader : Source.
Variable rand_Int : Source -> Z -> Source * (Z + error).
Implicit Types (v : Vigenere Source) (alphabets : list string).

(** X18.  In a context that [NewVigenere] has built, with any random
    source bound to it, [Length] is positive: [Encrypt] never divides by
    zero, [GenerateRandomNumber] never calls [rand.Int] with a bound that
    makes it panic, and [GenerateSecretKey] panics only if a number drawn
    is no index of the alphabet. *)
Theorem built_context_panics alphabets v src text secret :
  NewVigenere rand_Reader alphabets = (Some v, None) ->
  Encrypt v text secret <> Go.Panic Go.DivideByZero /\
  (GenerateRandomNumber rand_Int (with_source v src)).2
    <> Go.Panic Go.RandIntArgument /\
  (forall p,
     (GenerateSecretKey rand_Int (with_source v src) text).2 = Go.Panic p ->
     p = Go.IndexOutOfRange_Alphabets).
Proof.
  intros Hnew.
  apply NewVigenere_Some in Hnew as (_ & _ & HL & Hpos & _ & _).
  split_and!.
  - unfold Encrypt. destruct (_ <? _); [done|].
    destruct (Encrypt_loop _ _ _ _ _) as [ciphertext|q] eqn:Hloop; simpl.
    + destruct (ConvertToString v ciphertext) as [str|q] eqn:Hstr; [done|].
      simpl. by apply ConvertToString_Panic in Hstr as ->.
    + apply Encrypt_loop_Panic_nonzero in Hloop as ->; [done|lia].
  - unfold GenerateRandomNumber. simpl.
    destruct (Z.leb_spec (Length v) 0); [lia|].
    by destruct (rand_Int src (Length v)) as [src1 [number|err]].
  - intros p Hp.
    destruct (GenerateSecretKey rand_Int (with_source v src) text)
      as [src1 out] eqn:Hgen.
    simpl in Hp. subst out.
    by eapply (GenerateSecretKey_Panic rand_Int (with_source v src)).
Qed.

(** X19.  Over an alphabet of single ASCII characters [ValidateString]
    accepts a text exactly when each of its bytes, as a string of one
    character, is a symbol of the alphabet. *)
Theorem ValidateString_ascii_bytes v str :
  forallb is_ascii_symbol (Alphabets v) = true ->
  ValidateString v str = (true, None)
  <-> Forall (fun c => String c EmptyString ∈ Alphabets v)
             (String.list_ascii_of_string str).
Proof.
  intros Hascii. split.
  - intros Hvalid.
    destruct (ValidateString_encodes v Hascii _ Hvalid) as [numeric Henc].
    clear Hvalid. induction Henc as [|k c numeric str Hk Hl Hc _ IH]; [constructor|].
    simpl. constructor; [by eapply list_elem_of_lookup_2|done].
  - intros Hbytes.
    assert (Henc : exists numeric, encodes (Alphabets v) numeric str).
    { induction str as [|c str IH]; [exists []; constructor|].
      simpl in Hbytes. apply Forall_cons in Hbytes as [Hc Hrest].
      destruct (IH Hrest) as [numeric Henc].
      destruct (alphabets_ascii_elem v Hascii _ Hc) as (c' & [= <-] & Hlt).
      apply list_elem_of_lookup_1 in Hc as [k Hk].
      exists (Z.of_nat k :: numeric).
      constructor; [lia|by rewrite Nat2Z.id|done|done]. }
    destruct Henc as [numeric Henc]. by eapply encodes_ValidateString.
Qed.

End BuiltContext.

(** ** The further properties at concrete inputs *)

(** The rune of ["1"] is dropped. *)
Lemma ConvertToNumeric_skips_unknown_witness :
  NoDup (Alphabets (Scripted.default [])) /\
  Forall2 (fun num r => 0 <= num /\
             Alphabets (Scripted.default []) !! Z.to_nat num
             = Some (Go.string_of_rune r))
          (ConvertToNumeric (Scripted.default []) "A1B")
          (filter (fun r => Go.string_of_rune r
                            ∈ Alphabets (Scripted.default []))
                  (Go.runes "A1B")).
Proof.
  assert (Hnd : NoDup (Alphabets (Scripted.default []))) by compute_done.
  split; [exact Hnd|].
  apply (ConvertToNumeric_skips_unknown (Scripted.default []) "A1B"). exact Hnd.
Defined.

Lemma ValidateString_iff_no_rune_lost_witness :
  NoDup (Alphabets (Scripted.default [])) /\
  length (ConvertToNumeric (Scripted.default []) "HELLO")
  = length (Go.runes "HELLO") /\
  ValidateString (Scripted.default []) "HELLO" = (true, None).
Proof.
  assert (Hnd : NoDup (Alphabets (Scripted.default []))) by compute_done.
  split; [exact Hnd|]. split; [reflexivity|].
  apply (ValidateString_iff_no_rune_lost (Scripted.default []) "HELLO" Hnd).
  reflexivity.
Defined.

(** The default alphabet has no symbol at index 26. *)
Lemma ConvertToString_outcome_witness :
  ~ Forall (in_range (Scripted.default [])) [0; 26] /\
  ConvertToString (Scripted.default []) [0; 26]
  = Go.Panic Go.IndexOutOfRange_Alphabets.
Proof.
  assert (Hout : ~ Forall (in_range (Scripted.default [])) [0; 26]).
  { intros H. apply Forall_cons in H as [_ H]. apply Forall_cons in H as [H _].
    unfold in_range in H. simpl in H. lia. }
  split; [exact Hout|].
  destruct (ConvertToString_outcome (Scripted.default []) [0; 26]) as [_ H].
  apply H. exact Hout.
Defined.

Lemma ConvertToString_ConvertToNumeric_witness :
  NoDup (Alphabets (Scripted.default [])) /\
  ValidateString (Scripted.default []) "HELLO" = (true, None) /\
  forallb is_ascii_symbol (Alphabets (Scripted.default [])) = true /\
  ConvertToString (Scripted.default [])
    (ConvertToNumeric (Scripted.default []) "HELLO") = Go.Ret "HELLO".
Proof.
  assert (Hnd : NoDup (Alphabets (Scripted.default []))) by compute_done.
  split; [exact Hnd|]. split; [reflexivity|]. split; [reflexivity|].
  destruct (ConvertToString_ConvertToNumeric (Scripted.default []) "HELLO"
              Hnd eq_refl) as [_ H].
  apply H. reflexivity.
Defined.

Lemma ConvertToNumeric_ConvertToString_witness :
  NoDup (Alphabets (Scripted.default [])) /\
  forallb is_ascii_symbol (Alphabets (Scripted.default [])) = true /\
  Forall (in_range (Scripted.default [])) [7; 4; 11; 11; 14] /\
  exists str,
    ConvertToString (Scripted.default []) [7; 4; 11; 11; 14] = Go.Ret str /\
    ConvertToNumeric (Scripted.default []) str = [7; 4; 11; 11; 14] /\
    Go.len str = Z.of_nat (length [7; 4; 11; 11; 14]) /\
    ValidateString (Scripted.default []) str = (true, None).
Proof.
  assert (Hnd : NoDup (Alphabets (Scripted.default []))) by compute_done.
  assert (Hr : Forall (in_range (Scripted.default [])) [7; 4; 11; 11; 14]).
  { repeat (constructor; [unfold in_range; simpl; lia|]). constructor. }
  split; [exact Hnd|]. split; [reflexivity|]. split; [exact Hr|].
  apply (ConvertToNumeric_ConvertToString (Scripted.default [])
           [7; 4; 11; 11; 14] Hnd eq_refl Hr).
Defined.

Lemma Encrypt_after_Decrypt_ascii_witness :
  NewVigenere [] [] = (Some (Scripted.default []), None) /\
  forallb is_ascii_symbol (Alphabets (Scripted.default [])) = true /\
  ValidateString (Scripted.default []) "WPFEC" = (true, None) /\
  ValidateString (Scripted.default []) "PLUTO" = (true, None) /\
  Go.len "WPFEC" <= Go.len "PLUTO" /\
  exists plaintext,
    Decrypt (Scripted.default []) "WPFEC" "PLUTO" = Go.Ret (plaintext, None) /\
    Encrypt (Scripted.default []) plaintext "PLUTO" = Go.Ret ("WPFEC", None).
Proof.
  assert (Hlen : Go.len "WPFEC" <= Go.len "PLUTO") by reflexivity.
  split; [reflexivity|]. split; [reflexivity|]. split; [reflexivity|].
  split; [reflexivity|]. split; [exact Hlen|].
  apply (Encrypt_after_Decrypt_ascii [] [] (Scripted.default []) "WPFEC" "PLUTO"
           eq_refl eq_refl eq_refl eq_refl Hlen).
Defined.

Lemma Encrypt_comm_witness :
  NewVigenere [] [] = (Some (Scripted.default []), None) /\
  forallb is_ascii_symbol (Alphabets (Scripted.default [])) = true /\
  ValidateString (Scripted.default []) "HELLO" = (true, None) /\
  ValidateString (Scripted.default []) "PLUTO" = (true, None) /\
  Go.len "HELLO" = Go.len "PLUTO" /\
  Encrypt (Scripted.default []) "HELLO" "PLUTO"
  = Encrypt (Scripted.default []) "PLUTO" "HELLO".
Proof.
  split; [reflexivity|]. split; [reflexivity|]. split; [reflexivity|].
  split; [reflexivity|]. split; [reflexivity|].
  apply (Encrypt_comm [] [] (Scripted.default []) "HELLO" "PLUTO"
           eq_refl eq_refl eq_refl eq_refl eq_refl).
Defined.

Lemma trailing_secret_ignored_witness :
  NewVigenere [] [] = (Some (Scripted.default []), None) /\
  forallb is_ascii_symbol (Alphabets (Scripted.default [])) = true /\
  ValidateString (Scripted.default []) "HELLO" = (true, None) /\
  ValidateString (Scripted.default []) "PLUTO" = (true, None) /\
  ValidateString (Scripted.default []) "XYZ" = (true, None) /\
  Go.len "HELLO" <= Go.len "PLUTO" /\
  Encrypt (Scripted.default []) "HELLO" ("PLUTO" +:+ "XYZ")
  = Encrypt (Scripted.default []) "HELLO" "PLUTO" /\
  Decrypt (Scripted.default []) "HELLO" ("PLUTO" +:+ "XYZ")
  = Decrypt (Scripted.default []) "HELLO" "PLUTO".
Proof.
  assert (Hlen : Go.len "HELLO" <= Go.len "PLUTO") by reflexivity.
  split; [reflexivity|]. split; [reflexivity|]. split; [reflexivity|].
  split; [reflexivity|]. split; [reflexivity|]. split; [exact Hlen|].
  apply (trailing_secret_ignored [] [] (Scripted.default [])
           "HELLO" "PLUTO" "XYZ" eq_refl eq_refl eq_refl eq_refl eq_refl Hlen).
Defined.

Lemma Encrypt_Decrypt_output_valid_witness :
  NewVigenere [] [] = (Some (Scripted.default []), None) /\
  forallb is_ascii_symbol (Alphabets (Scripted.default [])) = true /\
  ValidateString (Scripted.default []) "HELLO" = (true, None) /\
  ValidateString (Scripted.default []) "PLUTO" = (true, None) /\
  Go.len "HELLO" <= Go.len "PLUTO" /\
  (exists out,
     Encrypt (Scripted.default []) "HELLO" "PLUTO" = Go.Ret (out, None) /\
     ValidateString (Scripted.default []) out = (true, None)) /\
  (exists out,
     Decrypt (Scripted.default []) "HELLO" "PLUTO" = Go.Ret (out, None) /\
     ValidateString (Scripted.default []) out = (true, None)).
Proof.
  assert (Hlen : Go.len "HELLO" <= Go.len "PLUTO") by reflexivity.
  split; [reflexivity|]. split; [reflexivity|]. split; [reflexivity|].
  split; [reflexivity|]. split; [exact Hlen|].
  apply (Encrypt_Decrypt_output_valid [] [] (Scripted.default [])
           "HELLO" "PLUTO" eq_refl eq_refl eq_refl eq_refl Hlen).
Defined.

(** A secret of two bytes with a single symbol of the alphabet passes
    the length guard for a text of two symbols, and the call panics. *)
Lemma Encrypt_Decrypt_outcome_witness :
  NewVigenere [] [] = (Some (Scripted.default []), None) /\
  Z.of_nat (length (Alphabets (Scripted.default []))) < 2 ^ 62 /\
  Go.len "AB" <= Go.len "A1" /\
  (length (ConvertToNumeric (Scripted.default []) "A1")
   < length (ConvertToNumeric (Scripted.default []) "AB"))%nat /\
  Encrypt (Scripted.default []) "AB" "A1"
  = Go.Panic Go.IndexOutOfRange_numericSecret /\
  Decrypt (Scripted.default []) "AB" "A1"
  = Go.Panic Go.IndexOutOfRange_numericSecret.
Proof.
  assert (Hlen : Go.len "AB" <= Go.len "A1") by reflexivity.
  assert (Hshort : (length (ConvertToNumeric (Scripted.default []) "A1")
                    < length (ConvertToNumeric (Scripted.default []) "AB"))%nat)
    by (vm_compute; lia).
  split; [reflexivity|]. split; [reflexivity|]. split; [exact Hlen|].
  split; [exact Hshort|].
  destruct (Encrypt_Decrypt_outcome [] [] (Scripted.default []) "AB" "A1"
              eq_refl eq_refl Hlen) as [H _].
  apply H. exact Hshort.
Defined.

Lemma every_ciphertext_has_a_key_witness :
  NewVigenere [] [] = (Some (Scripted.default []), None) /\
  forallb is_ascii_symbol (Alphabets (Scripted.default [])) = true /\
  ValidateString (Scripted.default []) "HELLO" = (true, None) /\
  ValidateString (Scripted.default []) "WORLD" = (true, None) /\
  Go.len "HELLO" = Go.len "WORLD" /\
  exists key,
    Decrypt (Scripted.default []) "WORLD" "HELLO" = Go.Ret (key, None) /\
    ValidateString (Scripted.default []) key = (true, None) /\
    Go.len key = Go.len "HELLO" /\
    Encrypt (Scripted.default []) "HELLO" key = Go.Ret ("WORLD", None).
Proof.
  split; [reflexivity|]. split; [reflexivity|]. split; [reflexivity|].
  split; [reflexivity|]. split; [reflexivity|].
  apply (every_ciphertext_has_a_key [] [] (Scripted.default [])
           "HELLO" "WORLD" eq_refl eq_refl eq_refl eq_refl eq_refl).
Defined.

Lemma first_symbol_key_is_identity_witness :
  NewVigenere [] [] = (Some (Scripted.default []), None) /\
  forallb is_ascii_symbol (Alphabets (Scripted.default [])) = true /\
  ValidateString (Scripted.default []) "HELLO" = (true, None) /\
  Alphabets (Scripted.default []) !! 0%nat = Some "A" /\
  Go.len "HELLO" <= Z.of_nat 5 /\
  Encrypt (Scripted.default []) "HELLO" (Go.join (replicate 5 "A"))
  = Go.Ret ("HELLO", None) /\
  Decrypt (Scripted.default []) "HELLO" (Go.join (replicate 5 "A"))
  = Go.Ret ("HELLO", None).
Proof.
  assert (Hlen : Go.len "HELLO" <= Z.of_nat 5) by reflexivity.
  split; [reflexivity|]. split; [reflexivity|]. split; [reflexivity|].
  split; [reflexivity|]. split; [exact Hlen|].
  apply (first_symbol_key_is_identity [] [] (Scripted.default [])
           "HELLO" "A" 5 eq_refl eq_refl eq_refl eq_refl Hlen).
Defined.

Lemma generated_key_round_trip_witness :
  NewVigenere [] [] = (Some (Scripted.default []), None) /\
  forallb is_ascii_symbol (Alphabets (Scripted.default [])) = true /\
  ValidateString (Scripted.default []) "ABC" = (true, None) /\
  GenerateSecretKey Scripted.rand_Int
    (with_source (Scripted.default []) [inl 7; inl 30; inl 100]) "ABC"
  = ([], Go.Ret ("HEW", None)) /\
  ValidateString (Scripted.default []) "HEW" = (true, None) /\
  Go.len "HEW" = Go.len "ABC" /\
  exists ciphertext,
    Encrypt (Scripted.default []) "ABC" "HEW" = Go.Ret (ciphertext, None) /\
    Decrypt (Scripted.default []) ciphertext "HEW" = Go.Ret ("ABC", None).
Proof.
  split; [reflexivity|]. split; [reflexivity|]. split; [reflexivity|].
  split; [reflexivity|].
  apply (generated_key_round_trip [] Scripted.rand_Int []
           (Scripted.default []) [inl 7; inl 30; inl 100] "ABC" [] "HEW"
           eq_refl eq_refl eq_refl eq_refl).
Defined.

Lemma main_prints_plaintext_witness :
  let script : Scripted.Source :=
    inl <$> [1; 2; 3; 4; 5; 6; 7; 8; 9; 10; 11; 12; 13; 14] in
  draws Scripted.rand_Int 26 script
        [1; 2; 3; 4; 5; 6; 7; 8; 9; 10; 11; 12; 13; 14] [] /\
  exists secret ciphertext,
    ExampleMain.main script Scripted.rand_Int
    = ([],
       ExampleMain.Returned
         ["Vigenere Encryption done with the following results:";
          "Valid Plaintext: true";
          "Plaintext: VIGENERECIPHER";
          "Secret Key: " +:+ secret;
          "Ciphertext: " +:+ ciphertext;
          "Decrypted: VIGENERECIPHER"]) /\
    Go.len secret = 14 /\
    Encrypt {| Alphabets := GenerateDefaultAlphabets; Length := 26;
               RandomSource := script |} "VIGENERECIPHER" secret
    = Go.Ret (ciphertext, None).
Proof.
  intros script.
  assert (Hdraws : draws Scripted.rand_Int 26 script
                     [1; 2; 3; 4; 5; 6; 7; 8; 9; 10; 11; 12; 13; 14] []).
  { repeat (eapply draws_cons; [reflexivity|]). apply draws_nil. }
  split; [exact Hdraws|].
  apply (main_prints_plaintext script Scripted.rand_Int _ [] Hdraws eq_refl).
  repeat (constructor; [lia|]). constructor.
Defined.

Lemma main_panics_on_failed_draw_witness :
  let script : Scripted.Source :=
    [inl 3; inr (errRandomSource "Mocked crypto/rand error!")] in
  draws Scripted.rand_Int 26 script [3]
        [inr (errRandomSource "Mocked crypto/rand error!")] /\
  ExampleMain.main script Scripted.rand_Int
  = ([],
     ExampleMain.PanicValue
       "crypto/rand failed, reason: Mocked crypto/rand error!").
Proof.
  intros script.
  assert (Hdraws : draws Scripted.rand_Int 26 script [3]
                     [inr (errRandomSource "Mocked crypto/rand error!")]).
  { eapply draws_cons; [reflexivity|]. apply draws_nil. }
  split; [exact Hdraws|].
  apply (main_panics_on_failed_draw script Scripted.rand_Int [3]
           [inr (errRandomSource "Mocked crypto/rand error!")] []
           (errRandomSource "Mocked crypto/rand error!") Hdraws).
  - simpl. lia.
  - reflexivity.
Defined.

Lemma built_context_panics_witness :
  NewVigenere [] [] = (Some (Scripted.default []), None) /\
  Encrypt (Scripted.default []) "HELLO" "PLUTO" <> Go.Panic Go.DivideByZero /\
  (GenerateRandomNumber Scripted.rand_Int
     (with_source (Scripted.default []) [inl 3])).2
    <> Go.Panic Go.RandIntArgument.
Proof.
  split; [reflexivity|].
  destruct (built_context_panics [] Scripted.rand_Int [] (Scripted.default [])
              [inl 3] "HELLO" "PLUTO" eq_refl) as (H1 & H2 & _).
  split; [exact H1|exact H2].
Defined.

Lemma ValidateString_ascii_bytes_witness :
  forallb is_ascii_symbol (Alphabets (Scripted.default [])) = true /\
  ValidateString (Scripted.default []) "HELLO" = (true, None) /\
  Forall (fun c => String c EmptyString ∈ Alphabets (Scripted.default []))
         (String.list_ascii_of_string "HELLO").
Proof.
  split; [reflexivity|]. split; [reflexivity|].
  apply (ValidateString_ascii_bytes (Scripted.default []) "HELLO" eq_refl).
  reflexivity.
Defined.

(** ** UTF-8: what the decoder accepts is what [string(r)] writes *)

Module Utf8Facts.
Import Go.

Lemma land_disjoint x b n :
  0 <= n -> x mod 2 ^ n = 0 -> 0 <= b < 2 ^ n -> Z.land x b = 0.
Proof.
  intros Hn Hx Hb. apply Z.bits_inj'. intros i Hi.
  rewrite Z.land_spec, Z.bits_0.
  destruct (Z.lt_ge_cases i n) as [Hlt|Hge].
  - assert (Hmul : x = x / 2 ^ n * 2 ^ n).
    { pose proof (Z.div_mod x (2 ^ n)) as Hdm.
      assert (2 ^ n <> 0) by (apply Z.pow_nonzero; lia). lia. }
    rewrite Hmul, Z.mul_pow2_bits_low by done. done.
  - rewrite <- (Z.mod_small b (2 ^ n)) by done.
    rewrite Z.mod_pow2_bits_high by lia. apply andb_false_r.
Qed.

Lemma lor_disjoint x b n :
  0 <= n -> x mod 2 ^ n = 0 -> 0 <= b < 2 ^ n -> Z.lor x b = x + b.
Proof.
  intros Hn Hx Hb. pose proof (Z.add_lor_land x b) as H.
  rewrite (land_disjoint x b n) in H by done. lia.
Qed.

(** The values that [decoderune] computes, as sums. *)
Lemma decode2 s0 s1 :
  Z.lor (Z.shiftl (Z.land s0 0x1F) 6) (Z.land s1 0x3F)
  = s0 mod 32 * 64 + s1 mod 64.
Proof.
  rewrite GoFacts.land_0x1F, GoFacts.land_0x3F, Z.shiftl_mul_pow2 by lia.
  apply (lor_disjoint _ _ 6); [lia| |].
  - apply Z.mod_mul. lia.
  - apply (Z.mod_pos_bound s1 64). lia.
Qed.

Lemma decode3 s0 s1 s2 :
  Z.lor (Z.lor (Z.shiftl (Z.land s0 0x0F) 12) (Z.shiftl (Z.land s1 0x3F) 6))
        (Z.land s2 0x3F)
  = s0 mod 16 * 4096 + s1 mod 64 * 64 + s2 mod 64.
Proof.
  rewrite GoFacts.land_0x0F, !GoFacts.land_0x3F, !Z.shiftl_mul_pow2 by lia.
  pose proof (Z.mod_pos_bound s0 16 ltac:(lia)).
  pose proof (Z.mod_pos_bound s1 64 ltac:(lia)).
  pose proof (Z.mod_pos_bound s2 64 ltac:(lia)).
  rewrite (lor_disjoint (s0 mod 16 * 2 ^ 12) _ 12); [|lia| |lia].
  - rewrite (lor_disjoint _ _ 6); [lia|lia| |lia].
    change (2 ^ 12) with (64 * 2 ^ 6).
    replace (s0 mod 16 * (64 * 2 ^ 6) + s1 mod 64 * 2 ^ 6)
      with ((s0 mod 16 * 64 + s1 mod 64) * 2 ^ 6) by lia.
    apply Z.mod_mul. lia.
  - apply Z.mod_mul. lia.
Qed.

Lemma decode4 s0 s1 s2 s3 :
  Z.lor (Z.lor (Z.lor (Z.shiftl (Z.land s0 0x07) 18)
                      (Z.shiftl (Z.land s1 0x3F) 12))
               (Z.shiftl (Z.land s2 0x3F) 6))
        (Z.land s3 0x3F)
  = s0 mod 8 * 262144 + s1 mod 64 * 4096 + s2 mod 64 * 64 + s3 mod 64.
Proof.
  rewrite GoFacts.land_0x07, !GoFacts.land_0x3F, !Z.shiftl_mul_pow2 by lia.
  pose proof (Z.mod_pos_bound s0 8 ltac:(lia)).
  pose proof (Z.mod_pos_bound s1 64 ltac:(lia)).
  pose proof (Z.mod_pos_bound s2 64 ltac:(lia)).
  pose proof (Z.mod_pos_bound s3 64 ltac:(lia)).
  rewrite (lor_disjoint (s0 mod 8 * 2 ^ 18) _ 18); [|lia| |lia].
  2: { apply Z.mod_mul. lia. }
  rewrite (lor_disjoint (s0 mod 8 * 2 ^ 18 + s1 mod 64 * 2 ^ 12) _ 12);
    [|lia| |lia].
  2: { change (2 ^ 18) with (64 * 2 ^ 12).
       replace (s0 mod 8 * (64 * 2 ^ 12) + s1 mod 64 * 2 ^ 12)
         with ((s0 mod 8 * 64 + s1 mod 64) * 2 ^ 12) by lia.
       apply Z.mod_mul. lia. }
  rewrite (lor_disjoint _ _ 6); [lia|lia| |lia].
  change (2 ^ 18) with (4096 * 2 ^ 6). change (2 ^ 12) with (64 * 2 ^ 6).
  replace (s0 mod 8 * (4096 * 2 ^ 6) + s1 mod 64 * (64 * 2 ^ 6)
           + s2 mod 64 * 2 ^ 6)
    with ((s0 mod 8 * 4096 + s1 mod 64 * 64 + s2 mod 64) * 2 ^ 6) by lia.
  apply Z.mod_mul. lia.
Qed.

(** The bytes that [string(r)] writes, as sums. *)
Lemma string_of_rune_2 r :
  0x80 <= r < 0x800 ->
  string_of_rune r = bytes [0xC0 + r / 64; 0x80 + r mod 64].
Proof.
  intros Hr. unfold string_of_rune.
  destruct (Z.leb_spec 0 r); [|lia].
  destruct (Z.ltb_spec r 0x80); [lia|].
  destruct (Z.leb_spec 0x80 r); [|lia].
  destruct (Z.ltb_spec r 0x800); [|lia]. simpl andb. cbv iota.
  rewrite GoFacts.land_0x3F, Z.shiftr_div_pow2 by lia.
  change (2 ^ 6) with 64.
  rewrite (lor_disjoint 0xC0 _ 6), (lor_disjoint 0x80 _ 7); try done; try lia.
  - pose proof (Z.mod_pos_bound r 64 ltac:(lia)). change (2 ^ 7) with 128. lia.
  - change (2 ^ 6) with 64. Z.div_mod_to_equations. lia.
Qed.

Lemma string_of_rune_3 r :
  0x800 <= r < 0x10000 -> ~ (0xD800 <= r <= 0xDFFF) ->
  string_of_rune r
  = bytes [0xE0 + r / 4096; 0x80 + r / 64 mod 64; 0x80 + r mod 64].
Proof.
  intros Hr Hs. unfold string_of_rune, MaxRune.
  destruct (Z.leb_spec 0 r); [|lia].
  destruct (Z.ltb_spec r 0x80); [lia|].
  destruct (Z.leb_spec 0x80 r); [|lia].
  destruct (Z.ltb_spec r 0x800); [lia|].
  destruct (Z.ltb_spec r 0); [lia|].
  destruct (Z.ltb_spec 0x10FFFF r); [lia|].
  destruct (Z.leb_spec 0xD800 r), (Z.leb_spec r 0xDFFF); try lia;
    (destruct (Z.ltb_spec r 0x10000); [|lia]); simpl andb; simpl orb; cbv iota;
    rewrite !GoFacts.land_0x3F, !Z.shiftr_div_pow2 by lia;
    change (2 ^ 6) with 64; change (2 ^ 12) with 4096;
    pose proof (Z.mod_pos_bound r 64 ltac:(lia));
    pose proof (Z.mod_pos_bound (r / 64) 64 ltac:(lia));
    rewrite (lor_disjoint 0xE0 _ 5), !(lor_disjoint 0x80 _ 7);
    try done; try lia;
    try (change (2 ^ 7) with 128; lia);
    change (2 ^ 5) with 32; Z.div_mod_to_equations; lia.
Qed.

Lemma string_of_rune_4 r :
  0x10000 <= r <= MaxRune ->
  string_of_rune r
  = bytes [0xF0 + r / 262144; 0x80 + r / 4096 mod 64;
           0x80 + r / 64 mod 64; 0x80 + r mod 64].
Proof.
  unfold MaxRune. intros Hr. unfold string_of_rune, MaxRune.
  destruct (Z.leb_spec 0 r); [|lia].
  destruct (Z.ltb_spec r 0x80); [lia|].
  destruct (Z.leb_spec 0x80 r); [|lia].
  destruct (Z.ltb_spec r 0x800); [lia|].
  destruct (Z.ltb_spec r 0); [lia|].
  destruct (Z.ltb_spec 0x10FFFF r); [lia|].
  destruct (Z.leb_spec 0xD800 r); [|lia].
  destruct (Z.leb_spec r 0xDFFF); [lia|].
  destruct (Z.ltb_spec r 0x10000); [lia|]. simpl andb. simpl orb. cbv iota.
  rewrite !GoFacts.land_0x3F, !Z.shiftr_div_pow2 by lia.
  change (2 ^ 6) with 64. change (2 ^ 12) with 4096.
  change (2 ^ 18) with 262144.
  pose proof (Z.mod_pos_bound r 64 ltac:(lia)).
  pose proof (Z.mod_pos_bound (r / 64) 64 ltac:(lia)).
  pose proof (Z.mod_pos_bound (r / 4096) 64 ltac:(lia)).
  rewrite (lor_disjoint 0xF0 _ 4), !(lor_disjoint 0x80 _ 7);
    try done; try lia;
    try (change (2 ^ 7) with 128; lia).
  change (2 ^ 4) with 16. Z.div_mod_to_equations. lia.
Qed.

End Utf8Facts.

Module DecodeFacts.
Import Go.

Lemma bytes_2 (c0 c1 : Ascii.ascii) b0 b1 :
  b0 = byte_of c0 -> b1 = byte_of c1 ->
  bytes [b0; b1] = String c0 (String c1 EmptyString).
Proof. intros -> ->. simpl. by rewrite !GoFacts.chr_byte_of. Qed.

Lemma bytes_3 (c0 c1 c2 : Ascii.ascii) b0 b1 b2 :
  b0 = byte_of c0 -> b1 = byte_of c1 -> b2 = byte_of c2 ->
  bytes [b0; b1; b2] = String c0 (String c1 (String c2 EmptyString)).
Proof. intros -> -> ->. simpl. by rewrite !GoFacts.chr_byte_of. Qed.

Lemma bytes_4 (c0 c1 c2 c3 : Ascii.ascii) b0 b1 b2 b3 :
  b0 = byte_of c0 -> b1 = byte_of c1 -> b2 = byte_of c2 -> b3 = byte_of c3 ->
  bytes [b0; b1; b2; b3]
  = String c0 (String c1 (String c2 (String c3 EmptyString))).
Proof. intros -> -> -> ->. simpl. by rewrite !GoFacts.chr_byte_of. Qed.

Lemma acceptRange_bounds s0 lo hi :
  acceptRange s0 = (lo, hi) ->
  0x80 <= lo /\ hi <= 0xBF /\
  (s0 = 0xE0 -> 0xA0 <= lo) /\ (s0 = 0xED -> hi <= 0x9F) /\
  (s0 = 0xF0 -> 0x90 <= lo) /\ (s0 = 0xF4 -> hi <= 0x8F).
Proof.
  unfold acceptRange. intros Hacc.
  repeat match type of Hacc with
         | (if ?b then _ else _) = _ => destruct b eqn:?
         end;
    injection Hacc as <- <-;
    repeat match goal with
           | H : (_ =? _) = true |- _ => apply Z.eqb_eq in H
           | H : (_ =? _) = false |- _ => apply Z.eqb_neq in H
           end; lia.
Qed.

(** A rune other than [RuneError] is decoded only from its own encoding:
    the text starts with [string(r)], and the width is its length. *)
Lemma decoderune_valid c t r n :
  decoderune (String c t) = (r, n) -> r <> RuneError ->
  0 <= r <= MaxRune /\
  exists rest,
    String c t = string_of_rune r +:+ rest /\
    n = String.length (string_of_rune r).
Proof.
  unfold decoderune, RuneError, MaxRune, continuation.
  pose proof (GoFacts.byte_of_range c) as Hc.
  destruct (Z.ltb_spec (byte_of c) 0x80) as [H0|H0].
  { intros [= <- <-] _. split; [lia|]. exists t.
    rewrite GoFacts.string_of_rune_below_0x80, GoFacts.chr_byte_of by lia.
    done. }
  destruct (_ || _) eqn:Hinv; [by intros [= <- <-]|].
  apply orb_false_iff in Hinv as [Hlo%Z.ltb_ge Hhi%Z.ltb_ge].
  destruct t as [|c1 t1]; [by intros [= <- <-]|].
  pose proof (GoFacts.byte_of_range c1) as Hc1.
  destruct (acceptRange (byte_of c)) as [lo hi] eqn:Hacc.
  destruct (_ || _) eqn:Hs1; [by intros [= <- <-]|].
  apply orb_false_iff in Hs1 as [Hs1lo%Z.ltb_ge Hs1hi%Z.ltb_ge].
  apply acceptRange_bounds in Hacc as (Hlo1 & Hhi1 & HE0 & HED & HF0 & HF4).
  assert (Hm1 : byte_of c1 mod 64 = byte_of c1 - 0x80)
    by (Z.div_mod_to_equations; lia).
  destruct (Z.ltb_spec (byte_of c) 0xE0) as [H2|H2].
  { intros [= <- <-] _. rewrite Utf8Facts.decode2, Hm1.
    assert (Hm0 : byte_of c mod 32 = byte_of c - 0xC0)
      by (Z.div_mod_to_equations; lia).
    rewrite Hm0. split; [lia|]. exists t1.
    rewrite Utf8Facts.string_of_rune_2 by lia.
    rewrite (bytes_2 c c1); [done| |]; Z.div_mod_to_equations; lia. }
  destruct t1 as [|c2 t2]; [by intros [= <- <-]|].
  pose proof (GoFacts.byte_of_range c2) as Hc2.
  destruct (Z.leb_spec 0x80 (byte_of c2)), (Z.leb_spec (byte_of c2) 0xBF);
    simpl negb; cbv iota; try (by intros [= <- <-]).
  assert (Hm2 : byte_of c2 mod 64 = byte_of c2 - 0x80)
    by (Z.div_mod_to_equations; lia).
  destruct (Z.ltb_spec (byte_of c) 0xF0) as [H3|H3].
  { intros [= <- <-] _. rewrite Utf8Facts.decode3, Hm1, Hm2.
    assert (Hm0 : byte_of c mod 16 = byte_of c - 0xE0)
      by (Z.div_mod_to_equations; lia).
    rewrite Hm0. split; [lia|]. exists t2.
    rewrite Utf8Facts.string_of_rune_3 by lia.
    rewrite (bytes_3 c c1 c2); [done| | |]; Z.div_mod_to_equations; lia. }
  destruct t2 as [|c3 t3]; [by intros [= <- <-]|].
  pose proof (GoFacts.byte_of_range c3) as Hc3.
  destruct (Z.leb_spec 0x80 (byte_of c3)), (Z.leb_spec (byte_of c3) 0xBF);
    simpl negb; cbv iota; try (by intros [= <- <-]).
  assert (Hm3 : byte_of c3 mod 64 = byte_of c3 - 0x80)
    by (Z.div_mod_to_equations; lia).
  intros [= <- <-] _. rewrite Utf8Facts.decode4, Hm1, Hm2, Hm3.
  assert (Hm0 : byte_of c mod 8 = byte_of c - 0xF0)
    by (Z.div_mod_to_equations; lia).
  rewrite Hm0. split; [lia|]. exists t3.
  rewrite Utf8Facts.string_of_rune_4 by (unfold MaxRune; lia).
  rewrite (bytes_4 c c1 c2 c3); [done| | | |]; Z.div_mod_to_equations; lia.
Qed.

(** What follows the bytes of a rune does not change how it is
    decoded. *)
Lemma append_cons c (s1 s2 : string) :
  String c s1 +:+ s2 = String c (s1 +:+ s2).
Proof. reflexivity. Qed.

Lemma decoderune_app s rest r n :
  decoderune s = (r, n) -> r <> RuneError ->
  decoderune (s +:+ rest) = (r, n).
Proof.
  intros Hdec Hr. revert Hdec.
  destruct s as [|c0 t0]; [simpl; intros [= <- <-]; by destruct Hr|].
  unfold decoderune. rewrite append_cons.
  destruct (byte_of c0 <? 0x80); [done|].
  destruct (_ || _); [intros [= <- <-]; by destruct Hr|].
  destruct t0 as [|c1 t1]; [intros [= <- <-]; by destruct Hr|].
  rewrite append_cons.
  destruct (acceptRange (byte_of c0)) as [lo hi].
  destruct (_ || _); [intros [= <- <-]; by destruct Hr|].
  destruct (byte_of c0 <? 0xE0); [done|].
  destruct t1 as [|c2 t2]; [intros [= <- <-]; by destruct Hr|].
  rewrite append_cons.
  destruct (negb _); [intros [= <- <-]; by destruct Hr|].
  destruct (byte_of c0 <? 0xF0); [done|].
  destruct t2 as [|c3 t3]; [intros [= <- <-]; by destruct Hr|].
  rewrite append_cons.
  by destruct (negb _).
Qed.

Lemma string_of_rune_nonempty r : string_of_rune r <> EmptyString.
Proof.
  unfold string_of_rune.
  repeat match goal with |- context [if ?b then _ else _] => destruct b end;
    done.
Qed.

Lemma append_nil_r (s : string) : s +:+ EmptyString = s.
Proof. induction s as [|c s IH]; [done|]. by rewrite append_cons, IH. Qed.

Lemma append_assoc (s1 s2 s3 : string) :
  (s1 +:+ s2) +:+ s3 = s1 +:+ (s2 +:+ s3).
Proof.
  induction s1 as [|c s1 IH]; [done|]. by rewrite !append_cons, IH.
Qed.

Lemma length_append (s1 s2 : string) :
  String.length (s1 +:+ s2) = (String.length s1 + String.length s2)%nat.
Proof.
  induction s1 as [|c s1 IH]; [done|].
  rewrite append_cons. cbn [String.length]. by rewrite IH.
Qed.

(** Past the bytes of the current rune the loop goes on with the rest. *)
Lemma runes_from_app p rest :
  runes_from (String.length p) (p +:+ rest) = runes rest.
Proof.
  induction p as [|c p IH]; [done|].
  rewrite append_cons. cbn [String.length runes_from]. exact IH.
Qed.

Lemma runes_nonempty c t : runes (String c t) <> [].
Proof. unfold runes. cbn [runes_from]. by destruct (decoderune _). Qed.

(** The runes of a text that starts with a rune other than
    [RuneError]. *)
Lemma runes_decoded c t r n :
  decoderune (String c t) = (r, n) -> r <> RuneError ->
  exists rest,
    String c t = string_of_rune r +:+ rest /\
    runes (String c t) = r :: runes rest /\ 0 <= r <= MaxRune.
Proof.
  intros Hdec Hr.
  destruct (decoderune_valid c t r n Hdec Hr) as (Hrange & rest & Heq & Hn).
  exists rest. split; [done|]. split; [|done].
  unfold runes. cbn [runes_from]. rewrite Hdec.
  destruct (string_of_rune r) as [|c' p] eqn:Hp;
    [by apply string_of_rune_nonempty in Hp|].
  rewrite append_cons in Heq. injection Heq as <- ->. subst n.
  cbn [String.length Nat.pred]. by rewrite runes_from_app.
Qed.

End DecodeFacts.

(** ** Alphabets of runes

    What holds of texts and indices when the symbols are encodings of
    runes, for any width of the encodings. *)

Lemma append_inj_l (p s1 s2 : string) : p +:+ s1 = p +:+ s2 -> s1 = s2.
Proof.
  induction p as [|c p IH]; [done|].
  rewrite !DecodeFacts.append_cons. intros [= H]. by apply IH.
Qed.

(** A symbol that is one rune is the encoding of that rune, and is
    decoded as that rune at the head of any text. *)
Lemma is_rune_symbol_spec a :
  is_rune_symbol a = true ->
  exists r,
    r <> Go.RuneError /\ 0 <= r <= Go.MaxRune /\ a = Go.string_of_rune r /\
    forall str, Go.runes (a +:+ str) = r :: Go.runes str.
Proof.
  unfold is_rune_symbol.
  destruct (Go.runes a) as [|r [|? ?]] eqn:Hrunes; try discriminate.
  intros Hr%negb_true_iff%Z.eqb_neq.
  destruct a as [|c t]; [discriminate|].
  destruct (Go.decoderune (String c t)) as [r' n] eqn:Hdec.
  assert (r' = r) as ->.
  { rewrite runes_cons, Hdec in Hrunes. by injection Hrunes. }
  destruct (DecodeFacts.runes_decoded c t r n Hdec Hr)
    as (rest & Heq & Hrs & Hrange).
  assert (rest = EmptyString) as ->.
  { rewrite Hrunes in Hrs. injection Hrs as Hrs.
    destruct rest; [done|]. symmetry in Hrs.
    by apply DecodeFacts.runes_nonempty in Hrs. }
  rewrite DecodeFacts.append_nil_r in Heq.
  exists r. split_and!; try done; try lia.
  intros str.
  pose proof (DecodeFacts.decoderune_app _ str _ _ Hdec Hr) as Hdec'.
  rewrite DecodeFacts.append_cons in Hdec'.
  destruct (DecodeFacts.runes_decoded c (t +:+ str) r n Hdec' Hr)
    as (rest & Heq' & Hrs' & _).
  rewrite <- DecodeFacts.append_cons, Heq in Heq'.
  apply append_inj_l in Heq' as <-.
  by rewrite DecodeFacts.append_cons.
Qed.

Lemma no_replacement_symbol_spec (alphabets : list string) :
  no_replacement_symbol alphabets = true ->
  Go.string_of_rune Go.RuneError ∉ alphabets.
Proof.
  unfold no_replacement_symbol. rewrite forallb_forall. intros Hall Hin.
  apply list_elem_of_In, Hall in Hin.
  by rewrite String.eqb_refl in Hin.
Qed.

Lemma is_rune_symbol_no_replacement (alphabets : list string) :
  forallb is_rune_symbol alphabets = true ->
  Go.string_of_rune Go.RuneError ∉ alphabets.
Proof.
  rewrite forallb_forall. intros Hall Hin.
  apply list_elem_of_In, Hall in Hin. by vm_compute in Hin.
Qed.

Lemma uniform_width_spec (alphabets : list string) a :
  uniform_width alphabets = true -> a ∈ alphabets ->
  String.length a = symbol_width alphabets.
Proof.
  unfold uniform_width. rewrite forallb_forall. intros Hall Hin.
  apply list_elem_of_In, Hall in Hin. by apply Nat.eqb_eq.
Qed.

Lemma join_cons a (symbols : list string) :
  Go.join (a :: symbols) = a +:+ Go.join symbols.
Proof. reflexivity. Qed.

Lemma join_length_uniform (symbols : list string) w :
  Forall (fun a => String.length a = w) symbols ->
  String.length (Go.join symbols) = (w * length symbols)%nat.
Proof.
  induction 1 as [|a symbols Ha _ IH]; [simpl; lia|].
  rewrite join_cons, DecodeFacts.length_append, IH, Ha. simpl. lia.
Qed.

(** A duplicate-free alphabet of runes has at most as many symbols as
    there are code points. *)
Lemma rune_alphabet_length (alphabets : list string) :
  NoDup alphabets -> forallb is_rune_symbol alphabets = true ->
  Z.of_nat (length alphabets) <= 0x110000.
Proof.
  intros Hnd Hrune.
  set (all := Go.string_of_rune <$> seqZ 0 0x110000).
  assert (Hsub : alphabets ⊆+ all).
  { apply NoDup_submseteq; [done|]. intros a Hin.
    rewrite forallb_forall in Hrune.
    destruct (is_rune_symbol_spec a) as (r & _ & Hr & -> & _);
      [by apply Hrune, list_elem_of_In|].
    apply list_elem_of_fmap. exists r. split; [done|].
    apply elem_of_seqZ. unfold Go.MaxRune in Hr. lia. }
  apply submseteq_length in Hsub.
  unfold all in Hsub. rewrite length_fmap, length_seqZ in Hsub. lia.
Qed.

(** The loops give one index for each index of the text. *)
Lemma Encrypt_loop_length L numericSecret i numericPlaintext ciphertext out :
  Encrypt_loop L numericSecret i numericPlaintext ciphertext = Go.Ret out ->
  length out = (length ciphertext + length numericPlaintext)%nat.
Proof.
  revert i ciphertext.
  induction numericPlaintext as [|char rest IH]; intros i ciphertext; simpl.
  - intros [= <-]. lia.
  - destruct (Go.index _ numericSecret i) as [s|]; [|discriminate]. simpl.
    destruct (L =? 0); [discriminate|].
    intros H%IH. rewrite H, length_app. simpl. lia.
Qed.

Lemma Decrypt_loop_length L numericSecret i numericCiphertext plaintext out :
  Decrypt_loop L numericSecret i numericCiphertext plaintext = Go.Ret out ->
  length out = (length plaintext + length numericCiphertext)%nat.
Proof.
  revert i plaintext.
  induction numericCiphertext as [|char rest IH]; intros i plaintext; simpl.
  - intros [= <-]. lia.
  - destruct (Go.index _ numericSecret i) as [s|]; [|discriminate]. simpl.
    intros H%IH. rewrite H, length_app. simpl. lia.
Qed.

Section RuneAlphabet.

Context {Source : Type}.
Variable v : Vigenere Source.
Hypothesis alphabets_NoDup : NoDup (Alphabets v).
Hypothesis no_replacement : Go.string_of_rune Go.RuneError ∉ Alphabets v.

(** A valid text is the join of the encodings of its runes. *)
Lemma valid_text_join str :
  ValidateString v str = (true, None) ->
  str = Go.join (Go.string_of_rune <$> Go.runes str).
Proof.
  remember (String.length str) as n eqn:Hn. revert str Hn.
  induction n as [n IH] using lt_wf_ind. intros str Hn Hvalid.
  destruct str as [|c t]; [done|].
  destruct (Go.decoderune (String c t)) as [r w] eqn:Hdec.
  pose proof (proj1 (ValidateString_true v _) Hvalid) as Hall.
  assert (Hr : r <> Go.RuneError).
  { rewrite runes_cons, Hdec in Hall. apply Forall_cons in Hall as [Hin _].
    simpl in Hin. intros ->. by apply no_replacement. }
  destruct (DecodeFacts.runes_decoded c t r w Hdec Hr)
    as (rest & Heq & Hrs & _).
  rewrite Hrs in Hall |- *. apply Forall_cons in Hall as [_ Hrest].
  rewrite fmap_cons, join_cons.
  rewrite <- (IH (String.length rest)) with (str := rest);
    [done| |done|by apply ValidateString_true].
  subst n. rewrite Heq, DecodeFacts.length_append.
  pose proof (DecodeFacts.string_of_rune_nonempty r).
  destruct (Go.string_of_rune r); [done|simpl; lia].
Qed.

(** A valid text has one index for each rune. *)
Lemma valid_text_indices str :
  ValidateString v str = (true, None) ->
  length (ConvertToNumeric v str) = length (Go.runes str).
Proof.
  intros Hvalid.
  rewrite (Forall2_length _ _ _ (ConvertToNumeric_filter v str alphabets_NoDup)).
  by apply filter_length_eq_Forall, ValidateString_true.
Qed.

(** Over symbols of one width, the length in bytes of a valid text is
    that width times its number of indices. *)
Lemma valid_text_len str :
  uniform_width (Alphabets v) = true ->
  ValidateString v str = (true, None) ->
  String.length str
  = (symbol_width (Alphabets v) * length (ConvertToNumeric v str))%nat.
Proof.
  intros Hw Hvalid.
  rewrite valid_text_indices by done.
  rewrite (valid_text_join str Hvalid) at 1.
  rewrite (join_length_uniform _ (symbol_width (Alphabets v))).
  - by rewrite length_fmap.
  - apply Forall_fmap.
    eapply Forall_impl; [exact (proj1 (ValidateString_true v str) Hvalid)|].
    intros r Hin. simpl. by apply uniform_width_spec.
Qed.

(** So is the length of what [ConvertToString] returns. *)
Lemma ConvertToString_len numbers str :
  uniform_width (Alphabets v) = true ->
  ConvertToString v numbers = Go.Ret str ->
  String.length str = (symbol_width (Alphabets v) * length numbers)%nat.
Proof.
  intros Hw Hstr.
  pose proof (ConvertToString_Ret_in_range v _ _ Hstr) as Hr.
  destruct (ConvertToString_in_range v numbers Hr) as (symbols & Hsym & Hf).
  rewrite Hsym in Hstr. injection Hstr as <-.
  rewrite (join_length_uniform _ (symbol_width (Alphabets v))).
  - by rewrite (Forall2_length _ _ _ Hf).
  - eapply Forall_impl; [by eapply Forall2_lookup_elem|].
    intros a Hin. by apply uniform_width_spec.
Qed.

(** A valid text is what [ConvertToString] gives for its indices. *)
Lemma valid_text_ConvertToString str :
  ValidateString v str = (true, None) ->
  ConvertToString v (ConvertToNumeric v str) = Go.Ret str.
Proof.
  intros Hvalid. rewrite (valid_text_join str Hvalid) at 2.
  pose proof (ConvertToNumeric_filter v str alphabets_NoDup) as Hf.
  pose proof (proj1 (ValidateString_true v str) Hvalid) as Hall.
  assert (Hfilter : filter (fun r => Go.string_of_rune r ∈ Alphabets v)
                           (Go.runes str) = Go.runes str).
  { clear Hf. induction Hall as [|r rs Hr _ IH]; [done|].
    rewrite filter_cons_True by done. by rewrite IH. }
  rewrite Hfilter in Hf.
  destruct (ConvertToString_in_range v (ConvertToNumeric v str)
              (ConvertToNumeric_in_range v str)) as (symbols & -> & Hsym).
  do 2 f_equal. by eapply lookup_symbols_runes.
Qed.

(** Over symbols that are runes, the text that [ConvertToString] gives
    for indices of the alphabet has these indices. *)
Lemma ConvertToNumeric_of_ConvertToString numbers str :
  forallb is_rune_symbol (Alphabets v) = true ->
  ConvertToString v numbers = Go.Ret str ->
  ConvertToNumeric v str = numbers.
Proof.
  intros Hrune Hstr.
  pose proof (ConvertToString_Ret_in_range v _ _ Hstr) as Hr.
  destruct (ConvertToString_in_range v numbers Hr) as (symbols & Hsym & Hf).
  rewrite Hsym in Hstr. injection Hstr as <-.
  rewrite ConvertToNumeric_eq. clear Hsym.
  induction Hf as [|num a numbers symbols Ha _ IH]; [done|].
  apply Forall_cons in Hr as [Hnum Hr].
  rewrite forallb_forall in Hrune.
  destruct (is_rune_symbol_spec a) as (r & _ & _ & -> & Hrunes).
  { apply Hrune, list_elem_of_In. by eapply list_elem_of_lookup_2. }
  rewrite join_cons, Hrunes. simpl. rewrite IH by done.
  rewrite (ConvertToNumeric_scan_NoDup _ _ _ (Z.to_nat num)) by done.
  simpl. f_equal. unfold in_range in Hnum. lia.
Qed.

End RuneAlphabet.

Lemma symbol_width_pos (alphabets : list string) :
  alphabets <> [] -> forallb is_rune_symbol alphabets = true ->
  (0 < symbol_width alphabets)%nat.
Proof.
  destruct alphabets as [|a rest]; [done|]. intros _ Hrune. simpl in *.
  apply andb_true_iff in Hrune as [Ha _].
  destruct (is_rune_symbol_spec a Ha) as (r & _ & _ & -> & _).
  pose proof (DecodeFacts.string_of_rune_nonempty r).
  destruct (Go.string_of_rune r); [done|simpl; lia].
Qed.

(** ** The round trip and the lengths, for alphabets of runes *)

Section RuneProperties.

Context {Source : Type}.
Variable rand_Reader : Source.
Implicit Types (v : Vigenere Source) (alphabets : list string).

(** C1, amended.  In a context that [NewVigenere] has built over an
    alphabet whose symbols are each one rune (the UTF-8 encoding of one
    code point other than U+FFFD) and all of one length in bytes, for
    every plaintext and secret that [ValidateString] accepts, with
    [len(secret) >= len(plaintext)], [Encrypt] returns a ciphertext and
    no error, and [Decrypt] of that ciphertext with the same secret
    returns the plaintext and no error. *)
Theorem Decrypt_Encrypt_rune_alphabet alphabets v plaintext secret :
  NewVigenere rand_Reader alphabets = (Some v, None) ->
  forallb is_rune_symbol (Alphabets v) = true ->
  uniform_width (Alphabets v) = true ->
  ValidateString v plaintext = (true, None) ->
  ValidateString v secret = (true, None) ->
  Go.len plaintext <= Go.len secret ->
  exists ciphertext,
    Encrypt v plaintext secret = Go.Ret (ciphertext, None) /\
    Decrypt v ciphertext secret = Go.Ret (plaintext, None).
Proof.
  intros Hnew Hrune Hw Hp Hs Hlen.
  apply NewVigenere_Some in Hnew as (_ & Hnd & HL & Hpos & _ & _).
  pose proof (is_rune_symbol_no_replacement _ Hrune) as Hno.
  pose proof (rune_alphabet_length _ Hnd Hrune) as Hsmall.
  assert (HLr : 0 < Length v < 2 ^ 62) by lia.
  assert (Hnum : forall str,
    Forall (fun num => 0 <= num < Length v) (ConvertToNumeric v str)).
  { intros str. rewrite HL. apply ConvertToNumeric_in_range. }
  set (P := ConvertToNumeric v plaintext) in *.
  set (S := ConvertToNumeric v secret) in *.
  pose proof (valid_text_len v Hnd Hno plaintext Hw Hp) as HlenP.
  pose proof (valid_text_len v Hnd Hno secret Hw Hs) as HlenS.
  fold P in HlenP. fold S in HlenS.
  assert (Hwpos : (0 < symbol_width (Alphabets v))%nat).
  { apply symbol_width_pos; [|done]. intros Hnil. rewrite Hnil in HL.
    simpl in HL. lia. }
  assert (HPS : (length P <= length S)%nat).
  { unfold Go.len in Hlen. rewrite HlenP, HlenS in Hlen.
    apply Nat2Z.inj_le in Hlen.
    by apply Nat.mul_le_mono_pos_l in Hlen. }
  set (C := zip_with (add_mod (Length v)) P S).
  assert (HC : Forall (in_range v) C).
  { unfold in_range. rewrite <- HL. apply zip_with_add_mod_in_range. lia. }
  destruct (ConvertToString_in_range v C HC) as (symbols & Hstr & _).
  exists (Go.join symbols).
  assert (Henc : Encrypt v plaintext secret = Go.Ret (Go.join symbols, None)).
  { unfold Encrypt.
    destruct (Z.ltb_spec (Go.len secret) (Go.len plaintext)); [lia|].
    fold P S.
    pose proof (Encrypt_loop_zip (Length v) [] S P []) as Hloop.
    change (Z.of_nat (length [])) with 0 in Hloop. simpl in Hloop.
    rewrite Hloop by (done || apply Hnum). simpl. fold C.
    by rewrite Hstr. }
  split; [done|].
  unfold Decrypt.
  pose proof (ConvertToString_len v _ _ Hw Hstr) as HlenC.
  assert (HlenCP : length C = length P).
  { unfold C. rewrite length_zip_with. lia. }
  destruct (Z.ltb_spec (Go.len secret) (Go.len (Go.join symbols)))
    as [Hlt|_].
  { unfold Go.len in Hlt, Hlen. rewrite HlenC, HlenCP, <- HlenP in Hlt. lia. }
  rewrite (ConvertToNumeric_of_ConvertToString v Hnd C _ Hrune Hstr).
  fold S.
  pose proof (Decrypt_loop_zip (Length v) [] S C []) as Hloop.
  change (Z.of_nat (length [])) with 0 in Hloop. simpl in Hloop.
  rewrite Hloop; [|done|lia|apply Hnum|].
  2: { apply zip_with_add_mod_in_range. lia. }
  simpl. unfold C.
  rewrite zip_with_sub_wrap_add_mod by (done || apply Hnum).
  unfold P. by rewrite (valid_text_ConvertToString v Hnd Hno).
Qed.

(** C6, amended.  In a context that [NewVigenere] has built over an
    alphabet whose symbols are all of one length in bytes and do not
    include the encoding of U+FFFD, for every text that [ValidateString]
    accepts and every secret: what [Encrypt] returns without error has the
    [len] of the text, and so has what [Decrypt] returns without error;
    and both do return without error when the secret is valid too and at
    least as long as the text (the alphabet having fewer than 2^62
    symbols). *)
Theorem Encrypt_Decrypt_length_uniform alphabets v text secret :
  NewVigenere rand_Reader alphabets = (Some v, None) ->
  uniform_width (Alphabets v) = true ->
  no_replacement_symbol (Alphabets v) = true ->
  ValidateString v text = (true, None) ->
  (forall out, Encrypt v text secret = Go.Ret (out, None) ->
               Go.len out = Go.len text) /\
  (forall out, Decrypt v text secret = Go.Ret (out, None) ->
               Go.len out = Go.len text) /\
  (ValidateString v secret = (true, None) ->
   Go.len text <= Go.len secret ->
   Z.of_nat (length (Alphabets v)) < 2 ^ 62 ->
   (exists out, Encrypt v text secret = Go.Ret (out, None)) /\
   (exists out, Decrypt v text secret = Go.Ret (out, None))).
Proof.
  intros Hnew Hw Hno%no_replacement_symbol_spec Ht.
  apply NewVigenere_Some in Hnew as (_ & Hnd & HL & Hpos & _ & _).
  pose proof (valid_text_len v Hnd Hno text Hw Ht) as HlenT.
  split_and!.
  - intros out. unfold Encrypt. destruct (_ <? _); [discriminate|].
    destruct (Encrypt_loop _ _ _ _ _) as [C|] eqn:Hloop; [|discriminate].
    simpl. destruct (ConvertToString v C) as [str|] eqn:Hstr; [|discriminate].
    simpl. intros [= <-].
    apply Encrypt_loop_length in Hloop. simpl in Hloop.
    unfold Go.len. by rewrite (ConvertToString_len v _ _ Hw Hstr), Hloop, HlenT.
  - intros out. unfold Decrypt. destruct (_ <? _); [discriminate|].
    destruct (Decrypt_loop _ _ _ _ _) as [C|] eqn:Hloop; [|discriminate].
    simpl. destruct (ConvertToString v C) as [str|] eqn:Hstr; [|discriminate].
    simpl. intros [= <-].
    apply Decrypt_loop_length in Hloop. simpl in Hloop.
    unfold Go.len. by rewrite (ConvertToString_len v _ _ Hw Hstr), Hloop, HlenT.
  - intros Hs Hlen Hsmall.
    pose proof (valid_text_len v Hnd Hno secret Hw Hs) as HlenS.
    assert (Hnum : forall str,
      Forall (fun num => 0 <= num < Length v) (ConvertToNumeric v str)).
    { intros str. rewrite HL. apply ConvertToNumeric_in_range. }
    set (T := ConvertToNumeric v text) in *.
    set (S := ConvertToNumeric v secret) in *.
    assert (HTS : (length T <= length S)%nat).
    { unfold Go.len in Hlen. rewrite HlenT, HlenS in Hlen.
      apply Nat2Z.inj_le in Hlen.
      destruct (symbol_width (Alphabets v)) as [|w] eqn:Hwidth.
      - assert (text = EmptyString) as ->
          by (destruct text; [done|simpl in HlenT; lia]).
        unfold T, ConvertToNumeric. simpl. lia.
      - apply Nat.mul_le_mono_pos_l in Hlen; [done|lia]. }
    assert (Hguard : (Go.len secret <? Go.len text) = false)
      by (apply Z.ltb_ge; lia).
    unfold Encrypt, Decrypt. rewrite Hguard. fold T S.
    pose proof (Encrypt_loop_zip (Length v) [] S T []) as He.
    pose proof (Decrypt_loop_zip (Length v) [] S T []) as Hd.
    change (Z.of_nat (length [])) with 0 in He, Hd. simpl in He, Hd.
    rewrite He, Hd by (done || lia || apply Hnum). simpl.
    split.
    + destruct (ConvertToString_in_range v (zip_with (add_mod (Length v)) T S))
        as (symbols & -> & _); [|by eexists].
      unfold in_range. rewrite <- HL. apply zip_with_add_mod_in_range. lia.
    + destruct (ConvertToString_in_range v (zip_with (sub_wrap (Length v)) T S))
        as (symbols & -> & _); [|by eexists].
      unfold in_range. rewrite <- HL.
      apply zip_with_sub_wrap_in_range; apply Hnum.
Qed.

End RuneProperties.

(** An alphabet of three Greek letters, of two bytes each: the round
    trip of [beta gamma] under the key [gamma gamma alpha]. *)
Lemma Decrypt_Encrypt_rune_alphabet_witness :
  let alpha := Go.bytes [0xCE; 0xB1] in
  let beta := Go.bytes [0xCE; 0xB2] in
  let gamma := Go.bytes [0xCE; 0xB3] in
  let v := Scripted.context [alpha; beta; gamma] [] in
  NewVigenere [] [alpha; beta; gamma] = (Some v, None) /\
  forallb is_rune_symbol (Alphabets v) = true /\
  uniform_width (Alphabets v) = true /\
  ValidateString v (beta +:+ gamma) = (true, None) /\
  ValidateString v (gamma +:+ gamma +:+ alpha) = (true, None) /\
  Go.len (beta +:+ gamma) <= Go.len (gamma +:+ gamma +:+ alpha) /\
  exists ciphertext,
    Encrypt v (beta +:+ gamma) (gamma +:+ gamma +:+ alpha)
      = Go.Ret (ciphertext, None) /\
    Decrypt v ciphertext (gamma +:+ gamma +:+ alpha)
      = Go.Ret (beta +:+ gamma, None).
Proof.
  intros alpha beta gamma v.
  assert (Hlen : Go.len (beta +:+ gamma)
                 <= Go.len (gamma +:+ gamma +:+ alpha)) by (by vm_compute).
  split; [reflexivity|]. split; [reflexivity|]. split; [reflexivity|].
  split; [reflexivity|]. split; [reflexivity|]. split; [exact Hlen|].
  apply (Decrypt_Encrypt_rune_alphabet [] [alpha; beta; gamma] v
           (beta +:+ gamma) (gamma +:+ gamma +:+ alpha)
           eq_refl eq_refl eq_refl eq_refl eq_refl Hlen).
Defined.

(** The same alphabet, with a secret that is not valid: one of its
    runes is no symbol, and it still has two symbols for the two of the
    text. *)
Lemma Encrypt_Decrypt_length_uniform_witness :
  let alpha := Go.bytes [0xCE; 0xB1] in
  let beta := Go.bytes [0xCE; 0xB2] in
  let gamma := Go.bytes [0xCE; 0xB3] in
  let v := Scripted.context [alpha; beta; gamma] [] in
  NewVigenere [] [alpha; beta; gamma] = (Some v, None) /\
  uniform_width (Alphabets v) = true /\
  no_replacement_symbol (Alphabets v) = true /\
  ValidateString v (beta +:+ gamma) = (true, None) /\
  Encrypt v (beta +:+ gamma) (gamma +:+ "1" +:+ beta)
    = Go.Ret (alpha +:+ alpha, None) /\
  Go.len (alpha +:+ alpha) = Go.len (beta +:+ gamma).
Proof.
  intros alpha beta gamma v.
  split; [reflexivity|]. split; [reflexivity|]. split; [reflexivity|].
  split; [reflexivity|]. split; [reflexivity|].
  destruct (Encrypt_Decrypt_length_uniform [] [alpha; beta; gamma] v
              (beta +:+ gamma) (gamma +:+ "1" +:+ beta)
              eq_refl eq_refl eq_refl eq_refl) as [H _].
  apply H. reflexivity.
Defined.

(** *** Why the symbols are to be runes, and U+FFFD none of them *)

(** With the encoding of U+FFFD as a symbol [ValidateString] accepts a
    byte that is not UTF-8: the text of the one byte FF is valid over
    [{U+FFFD, U+20AC}], its ciphertext has three bytes, and [Decrypt]
    returns U+FFFD for it. *)
Example Decrypt_Encrypt_fails_replacement_symbol :
  let replacement := Go.bytes [0xEF; 0xBF; 0xBD] in
  let euro := Go.bytes [0xE2; 0x82; 0xAC] in
  let v := Scripted.context [replacement; euro] [] in
  NewVigenere [] [replacement; euro] = (Some v, None) /\
  uniform_width (Alphabets v) = true /\
  ValidateString v (Go.bytes [0xFF]) = (true, None) /\
  ValidateString v euro = (true, None) /\
  Encrypt v (Go.bytes [0xFF]) euro = Go.Ret (euro, None) /\
  Go.len euro <> Go.len (Go.bytes [0xFF]) /\
  Decrypt v euro euro = Go.Ret (replacement, None).
Proof. intros replacement euro v. by split_and!. Qed.

(** A symbol of two runes is never found in a text, also when it has
    the length in bytes of the others: over [{"AB", U+00E9}] the
    ciphertext of U+00E9 under the key U+00E9 is ["AB"], and [Decrypt]
    finds no symbol in it. *)
Example Decrypt_Encrypt_fails_two_rune_symbol :
  let eacute := Go.bytes [0xC3; 0xA9] in
  let v := Scripted.context ["AB"; eacute] [] in
  NewVigenere [] ["AB"; eacute] = (Some v, None) /\
  uniform_width (Alphabets v) = true /\
  ValidateString v eacute = (true, None) /\
  Encrypt v eacute eacute = Go.Ret ("AB", None) /\
  Decrypt v "AB" eacute = Go.Ret (EmptyString, None).
Proof. intros eacute v. by split_and!. Qed.
